(** * resolve.py: an iterative DNS resolver, embedded in Rocq

    The development follows [src/resolve.py].  The resolver keeps a
    process-wide dictionary [CACHE] keyed by (name text, record type), walks
    the delegation hierarchy starting from [ROOT_SERVERS], follows CNAME
    aliases, and resolves glueless delegations by calling itself.

    - The dnspython objects the code reads are modelled as data: a name is its
      tuple of labels, an RRset is an owner name with a typed rdataset, a
      message has a question and the three sections.
    - The network ([dns.query.udp]) is an oracle indexed by the number of
      datagrams sent so far, so that the same question may be answered
      differently at different times.
    - [CACHE] is threaded through every function as part of an explicit
      state; the state also carries a ghost trace of what the engine did.
    - [dns.name.from_text] is a parameter of [collect_results]: it gives the
      name a text stands for, or raises.
    - [while True] loops and the recursion for glueless delegations are
      bounded by fuel; [None] means the fuel ran out. *)

From stdpp Require Import gmap strings list fin_maps pretty.

Set Default Proof Using "Type".

(** ** Names, record types, records *)

(** [dns.name.Name.labels]: the labels of a name, leaf first; an absolute
    name ends with the empty root label.  [str(name)] is an injective
    rendering of the labels, so a name stands for its own text in cache
    keys. *)
Abbreviation Label := string (only parsing).
Abbreviation Name := (list string) (only parsing).

(** A nameserver address, as text. *)
Abbreviation Addr := string (only parsing).

(** [dns.rdatatype]: an integer enumeration; the members the code can meet. *)
Module rdatatype.

Inductive RdataType : Set := A | NS | CNAME | SOA | MX | TXT | AAAA.

Definition value (t : RdataType) : N :=
  match t with
  | A => 1 | NS => 2 | CNAME => 5 | SOA => 6 | MX => 15 | TXT => 16 | AAAA => 28
  end%N.

Definition of_value (n : N) : option RdataType :=
  match n with
  | 1 => Some A | 2 => Some NS | 5 => Some CNAME | 6 => Some SOA
  | 15 => Some MX | 16 => Some TXT | 28 => Some AAAA | _ => None
  end%N.

End rdatatype.

Abbreviation RdataType := rdatatype.RdataType.

#[global] Instance RdataType_eq_dec : EqDecision RdataType.
Proof. solve_decision. Defined.

#[global] Instance RdataType_countable : Countable RdataType.
Proof.
  apply (inj_countable rdatatype.value rdatatype.of_value).
  intros []; reflexivity.
Defined.

(** The records of an RRset all have the type of the RRset (dnspython checks
    it on insertion), so an rdataset is a typed list.  The list may be empty:
    indexing such an RRset with [[0]] raises [IndexError]. *)
Inductive Rdataset : Type :=
| A_rdataset (addresses : list Addr)
| AAAA_rdataset (addresses : list Addr)
| NS_rdataset (targets : list Name)
| CNAME_rdataset (targets : list Name)
| MX_rdataset (exchanges : list (N * Name))
| SOA_rdataset (serials : list N)
| TXT_rdataset (texts : list string).

Record RRset : Type := mkRRset { rr_name : Name; rr_rdataset : Rdataset }.

Definition rdtype (rr : RRset) : RdataType :=
  match rr_rdataset rr with
  | A_rdataset _ => rdatatype.A
  | AAAA_rdataset _ => rdatatype.AAAA
  | NS_rdataset _ => rdatatype.NS
  | CNAME_rdataset _ => rdatatype.CNAME
  | MX_rdataset _ => rdatatype.MX
  | SOA_rdataset _ => rdatatype.SOA
  | TXT_rdataset _ => rdatatype.TXT
  end.

(** [if rr.rdtype == NS: for rdata in rr: rdata.target] *)
Definition ns_targets (rr : RRset) : list Name :=
  match rr_rdataset rr with NS_rdataset ts => ts | _ => [] end.

(** [if rr.rdtype == A: for rdata in rr: rdata.address] *)
Definition a_addresses (rr : RRset) : list Addr :=
  match rr_rdataset rr with A_rdataset l => l | _ => [] end.

(** [for rdata in rr: if rdata.rdtype == CNAME: rdata.target] *)
Definition cname_targets (rr : RRset) : list Name :=
  match rr_rdataset rr with CNAME_rdataset ts => ts | _ => [] end.

Definition is_cname (rr : RRset) : bool :=
  bool_decide (rdtype rr = rdatatype.CNAME).

(** ** Messages *)

(** [dns.message.make_query(name, qtype)]: all the engine reads back from a
    query is its question. *)
Abbreviation Query := (list string * RdataType)%type (only parsing).

Record Message : Type := mkMessage {
  question : Query;
  rcode : N;
  answer : list RRset;
  authority : list RRset;
  additional : list RRset
}.

Definition make_query (qname : Name) (qtype : RdataType) : Query := (qname, qtype).

(** [dns.message.make_response(query)]: the question of the query, no error
    code and three empty sections. *)
Definition make_response (query : Query) : Message :=
  {| question := query; rcode := 0; answer := []; authority := []; additional := [] |}.

(** [r = make_response(query); r.answer = section] *)
Definition with_answer (query : Query) (section : list RRset) : Message :=
  {| question := query; rcode := 0; answer := section; authority := []; additional := [] |}.

(** ** Exceptions and the network *)

Inductive Exception : Set :=
| Timeout            (* dns.exception.Timeout *)
| OSError
| BadResponse        (* any other exception of dns.query.udp *)
| IndexError
| UnboundLocalError
| EmptyLabel         (* dns.name.EmptyLabel *)
| BadName            (* any other exception of dns.name.from_text *).

Inductive Completion (T : Type) : Type :=
| Normal (v : T)
| Raised (e : Exception).
Arguments Normal {T} v.
Arguments Raised {T} e.

Inductive Reply : Type :=
| Received (response : Message)
| Failed (e : Exception).

(** ** State *)

(** What the engine did, oldest first (ghost state). *)
Inductive Event : Type :=
| Cycle (current_target : Name) (nameservers : list Addr)
| Sent (nameservers : list Addr) (ns : Addr) (query : Query)
| Nested (ns_name : Name).

Record State : Type := mkState {
  CACHE : gmap (list string * RdataType) Message;
  clock : nat;
  trace : list Event
}.

Definition log (ev : Event) (st : State) : State :=
  {| CACHE := CACHE st; clock := clock st; trace := trace st ++ [ev] |}.

Definition tick (st : State) : State :=
  {| CACHE := CACHE st; clock := S (clock st); trace := trace st |}.

(** [CACHE[key] = response] *)
Definition store (key : Name * RdataType) (response : Message) (st : State) : State :=
  {| CACHE := <[key := response]> (CACHE st); clock := clock st; trace := trace st |}.

(** [if key not in CACHE: CACHE[key] = response] *)
Definition store_if_absent (key : Name * RdataType) (response : Message) (st : State) : State :=
  match CACHE st !! key with
  | Some _ => st
  | None => store key response st
  end.

(** current as of 25 October 2018 *)
Definition ROOT_SERVERS : list Addr :=
  ["198.41.0.4"; "199.9.14.201"; "192.33.4.12"; "199.7.91.13";
   "192.203.230.10"; "192.5.5.241"; "192.112.36.4"; "198.97.190.53";
   "192.36.148.17"; "192.58.128.30"; "193.0.14.129"; "199.7.83.42";
   "202.12.27.33"]%string.

(** ** Finding the closest cached nameservers (lines 119-148) *)

(** The addresses cached for one NS target. *)
Definition cached_addresses (cache : gmap (list string * RdataType) Message)
    (ns_name : Name) : list Addr :=
  match cache !! (ns_name, rdatatype.A) with
  | Some ns_response => flat_map a_addresses (answer ns_response)
  | None => []
  end.

(** The list [nameservers] built from one cached NS response. *)
Definition cached_nameservers (cache : gmap (list string * RdataType) Message)
    (cached_response : Message) : list Addr :=
  flat_map (cached_addresses cache) (flat_map ns_targets (answer cached_response)).

(** [for i in range(len(labels)): parent = Name(labels[i:]) ...]; the
    argument [labels] is the suffix [labels[i:]], and [nameservers] is the
    variable of that name ([None] until some ancestor has an NS entry). *)
Fixpoint closest_loop (cache : gmap (list string * RdataType) Message)
    (labels : list Label) (nameservers : option (list Addr)) : option (list Addr) :=
  match labels with
  | [] => nameservers
  | _ :: rest =>
      match cache !! (labels, rdatatype.NS) with
      | Some cached_response =>
          match cached_nameservers cache cached_response with
          | [] => closest_loop cache rest (Some [])
          | found => Some found
          end
      | None => closest_loop cache rest nameservers
      end
  end.

(** [if not nameservers: nameservers = list(ROOT_SERVERS)] *)
Definition select_nameservers (cache : gmap (list string * RdataType) Message)
    (target_name : Name) : list Addr :=
  match closest_loop cache target_name None with
  | Some (ns :: more) => ns :: more
  | _ => ROOT_SERVERS
  end.

(** ** The query engine (lines 150-246) *)

(** How the body of [for ns in nameservers] ends. *)
Inductive Flow : Type :=
| Continue
| Return (response : Message)
| Break (current_target : Name) (nameservers : list Addr).

Section Engine.

(** [dns.query.udp(query, ns, 3)] when [clock] datagrams were sent before. *)
Variable udp : nat -> Query -> Addr -> Reply.

Section Loop.

(** The engine itself, for the nested lookups of glueless delegations. *)
Variable lookup_rec : Name -> RdataType -> State -> option (Completion Message * State).

Variable cache_key : Name * RdataType.
Variable qtype : RdataType.

(** Lines 210-217: glue from the additional section. *)
Fixpoint glue (outbound_query : Query) (additionals : list RRset)
    (new_nameservers : list Addr) (st : State) : Completion (list Addr) * State :=
  match additionals with
  | [] => (Normal new_nameservers, st)
  | additional :: more =>
      match rr_rdataset additional with
      | A_rdataset [] => (Raised IndexError, st)
      | A_rdataset (address :: _) =>
          let ns_ip_key := (rr_name additional, rdatatype.A) in
          glue outbound_query more (new_nameservers ++ [address])
            (store_if_absent ns_ip_key (with_answer outbound_query [additional]) st)
      | _ => glue outbound_query more new_nameservers st
      end
  end.

(** Lines 220-230: nested lookups of the NS targets; [new_nameservers]
    is empty whenever an iteration starts. *)
Fixpoint glueless (ns_names : list Name) (st : State) : option (list Addr * State) :=
  match ns_names with
  | [] => Some ([], st)
  | ns_name :: more =>
      match lookup_rec ns_name rdatatype.A (log (Nested ns_name) st) with
      | None => None
      | Some (Normal ns_response, st') =>
          match flat_map a_addresses (answer ns_response) with
          | [] => glueless more st'
          | new_nameservers => Some (new_nameservers, st')
          end
      | Some (Raised _, st') => glueless more st'
      end
  end.

(** Lines 166-238: what is done with a received response. *)
Definition classify (current_target : Name) (outbound_query : Query)
    (response : Message) (st : State) : option (Completion Flow * State) :=
  match answer response with
  | _ :: _ =>
      if bool_decide (qtype = rdatatype.CNAME) then
        if existsb is_cname (answer response) then
          Some (Normal (Return response), store cache_key response st)
        else
          let empty_response := make_response outbound_query in
          Some (Normal (Return empty_response), store cache_key empty_response st)
      else
        match find is_cname (answer response) with
        | Some cname =>
            match cname_targets cname with
            | target :: _ => Some (Normal (Break target ROOT_SERVERS), st)
            | [] => Some (Raised IndexError, st)
            end
        | None => Some (Normal (Return response), store cache_key response st)
        end
  | [] =>
      match authority response with
      | authority0 :: _ =>
          match flat_map ns_targets (authority response) with
          | [] => Some (Normal (Return response), store cache_key response st)
          | ns_names =>
              let zone_cache_key := (rr_name authority0, rdatatype.NS) in
              let st1 := store_if_absent zone_cache_key
                           (with_answer outbound_query (authority response)) st in
              match glue outbound_query (additional response) [] st1 with
              | (Raised e, st2) => Some (Raised e, st2)
              | (Normal (ns :: more), st2) =>
                  Some (Normal (Break current_target (ns :: more)), st2)
              | (Normal [], st2) =>
                  match glueless ns_names st2 with
                  | None => None
                  | Some ([], st3) => Some (Normal Continue, st3)
                  | Some (new_nameservers, st3) =>
                      Some (Normal (Break current_target new_nameservers), st3)
                  end
              end
          end
      | [] => Some (Normal Continue, st)
      end
  end.

(** Lines 157-238: the body of the outer [try]. *)
Definition attempt_body (current_target : Name) (nameservers : list Addr)
    (ns : Addr) (st : State) : option (Completion Flow * State) :=
  let outbound_query := make_query current_target qtype in
  let st0 := tick (log (Sent nameservers ns outbound_query) st) in
  match udp (clock st) outbound_query ns with
  | Failed Timeout => Some (Normal Continue, st0)
  | Failed OSError => Some (Normal Continue, st0)
  | Failed e => Some (Raised e, st0)
  | Received response => classify current_target outbound_query response st0
  end.

(** Lines 156-241: [try: ... except Exception: continue]. *)
Definition attempt (current_target : Name) (nameservers : list Addr)
    (ns : Addr) (st : State) : option (Flow * State) :=
  match attempt_body current_target nameservers ns st with
  | None => None
  | Some (Normal flow, st') => Some (flow, st')
  | Some (Raised _, st') => Some (Continue, st')
  end.

(** Line 155: [for ns in nameservers], from the nameserver [remaining]
    starts with.  [outbound_query] is the variable of that name, [None]
    while it is unbound.  The loop ends with [Continue] when it ran to
    its end ([found_next] is still false). *)
Fixpoint for_ns (current_target : Name) (nameservers remaining : list Addr)
    (outbound_query : option Query) (st : State)
    : option (Flow * option Query * State) :=
  match remaining with
  | [] => Some (Continue, outbound_query, st)
  | ns :: more =>
      let bound := Some (make_query current_target qtype) in
      match attempt current_target nameservers ns st with
      | None => None
      | Some (Continue, st') => for_ns current_target nameservers more bound st'
      | Some (flow, st') => Some (flow, bound, st')
      end
  end.

(** Lines 152-246: [while True]. *)
Fixpoint while_true (fuel : nat) (current_target : Name) (nameservers : list Addr)
    (outbound_query : option Query) (st : State)
    : option (Completion Message * State) :=
  match fuel with
  | 0 => None
  | S fuel' =>
      match for_ns current_target nameservers nameservers outbound_query
              (log (Cycle current_target nameservers) st) with
      | None => None
      | Some (Return response, _, st') => Some (Normal response, st')
      | Some (Break current_target' nameservers', outbound_query', st') =>
          while_true fuel' current_target' nameservers' outbound_query' st'
      | Some (Continue, Some outbound_query', st') =>
          let response := make_response outbound_query' in
          Some (Normal response, store cache_key response st')
      | Some (Continue, None, st') => Some (Raised UnboundLocalError, st')
      end
  end.

End Loop.

(** Lines 106-246. *)
Fixpoint lookup (fuel : nat) (target_name : Name) (qtype : RdataType) (st : State)
    : option (Completion Message * State) :=
  match fuel with
  | 0 => None
  | S fuel' =>
      let cache_key := (target_name, qtype) in
      match CACHE st !! cache_key with
      | Some cached => Some (Normal cached, st)
      | None =>
          while_true (lookup fuel') cache_key qtype fuel' target_name
            (select_nameservers (CACHE st) target_name) None st
      end
  end.

End Engine.

(** ** Collecting the results (lines 36-103) *)

(** [{"name": answer.target, "alias": current_name}] *)
Record CnameResult : Type := mkCnameResult { cname_name : Name; cname_alias : Name }.

(** [{"name": a_name, "address": str(answer)}] *)
Record AddressResult : Type := mkAddressResult { address_name : Name; address : Addr }.

(** [{"name": mx_name, "preference": answer.preference, "exchange": str(answer.exchange)}] *)
Record MxResult : Type := mkMxResult { mx_name : Name; preference : N; exchange : Name }.

(** The dictionary [full_response], with its four keys. *)
Record Results : Type := mkResults {
  results_CNAME : list CnameResult;
  results_A : list AddressResult;
  results_AAAA : list AddressResult;
  results_MX : list MxResult
}.

(** Lines 53-61: the first CNAME record of the answer section, if any. *)
Definition first_cname (response : Message) : option Name :=
  head (flat_map cname_targets (answer response)).

Definition aaaa_addresses (rr : RRset) : list Addr :=
  match rr_rdataset rr with AAAA_rdataset l => l | _ => [] end.

Definition mx_exchanges (rr : RRset) : list (N * Name) :=
  match rr_rdataset rr with MX_rdataset l => l | _ => [] end.

(** Lines 71-76. *)
Definition arecords (response : Message) : list AddressResult :=
  flat_map (fun answers => map (mkAddressResult (rr_name answers)) (a_addresses answers))
    (answer response).

(** Lines 80-85. *)
Definition aaaarecords (response : Message) : list AddressResult :=
  flat_map (fun answers => map (mkAddressResult (rr_name answers)) (aaaa_addresses answers))
    (answer response).

(** Lines 89-96. *)
Definition mxrecords (response : Message) : list MxResult :=
  flat_map (fun answers =>
              map (fun rd => mkMxResult (rr_name answers) rd.1 rd.2) (mx_exchanges answers))
    (answer response).

Section Collect.

(** The query engine [collect_results] calls. *)
Variable lookup_fn : Name -> RdataType -> State -> option (Completion Message * State).

(** Lines 45-67: follow the CNAME chain; the result is [final_name] and
    the list [cnames]. *)
Fixpoint follow_cnames (fuel : nat) (current_name : Name) (cnames : list CnameResult)
    (st : State) : option (Completion (Name * list CnameResult) * State) :=
  match fuel with
  | 0 => None
  | S fuel' =>
      match lookup_fn current_name rdatatype.CNAME st with
      | None => None
      | Some (Raised e, st') => Some (Raised e, st')
      | Some (Normal response, st') =>
          match first_cname response with
          | Some target =>
              follow_cnames fuel' target
                (cnames ++ [mkCnameResult target current_name]) st'
          | None => Some (Normal (current_name, cnames), st')
          end
      end
  end.

(** Lines 69-103: the three lookups against [final_name]. *)
Definition collect_records (final_name : Name) (cnames : list CnameResult) (st : State)
    : option (Completion Results * State) :=
  match lookup_fn final_name rdatatype.A st with
  | None => None
  | Some (Raised e, st1) => Some (Raised e, st1)
  | Some (Normal response_a, st1) =>
      match lookup_fn final_name rdatatype.AAAA st1 with
      | None => None
      | Some (Raised e, st2) => Some (Raised e, st2)
      | Some (Normal response_aaaa, st2) =>
          match lookup_fn final_name rdatatype.MX st2 with
          | None => None
          | Some (Raised e, st3) => Some (Raised e, st3)
          | Some (Normal response_mx, st3) =>
              Some (Normal {| results_CNAME := cnames;
                              results_A := arecords response_a;
                              results_AAAA := aaaarecords response_aaaa;
                              results_MX := mxrecords response_mx |}, st3)
          end
      end
  end.

Definition collect_from (fuel : nat) (target_name : Name) (st : State)
    : option (Completion Results * State) :=
  match follow_cnames fuel target_name [] st with
  | None => None
  | Some (Raised e, st') => Some (Raised e, st')
  | Some (Normal (final_name, cnames), st') => collect_records final_name cnames st'
  end.

End Collect.

(** [collect_results(name)]; [from_text] is [dns.name.from_text], which
    raises on a text that is not a domain name (line 42 is in no [try]). *)
Definition collect_results (udp : nat -> Query -> Addr -> Reply)
    (from_text : string -> Completion Name) (fuel : nat) (name : string) (st : State)
    : option (Completion Results * State) :=
  match from_text name with
  | Raised e => Some (Raised e, st)
  | Normal target_name => collect_from (lookup udp fuel) fuel target_name st
  end.


(** ** Printing the results (lines 14-17 and 248-256) *)

Section Output.

(** [str(name)] for a [dns.name.Name]. *)
Variable to_text : Name -> string.

(** The entries of [FORMATS], each applied to a result with [str.format],
    the fields of the result being the keyword arguments. *)
Definition format_CNAME (result : CnameResult) : string :=
  to_text (cname_alias result) +:+ " is an alias for " +:+ to_text (cname_name result).

Definition format_A (result : AddressResult) : string :=
  to_text (address_name result) +:+ " has address " +:+ address result.

Definition format_AAAA (result : AddressResult) : string :=
  to_text (address_name result) +:+ " has IPv6 address " +:+ address result.

Definition format_MX (result : MxResult) : string :=
  to_text (mx_name result) +:+ " mail is handled by "
  +:+ pretty (preference result) +:+ " " +:+ to_text (exchange result).

(** [print_results(results)]: the lines printed, in the order of [FORMATS]
    (CNAME, A, AAAA, MX) and, for each type, in the order of the results. *)
Definition print_results (results : Results) : list string :=
  map format_CNAME (results_CNAME results)
  ++ map format_A (results_A results)
  ++ map format_AAAA (results_AAAA results)
  ++ map format_MX (results_MX results).

(** Lines 271-272 of [main]: [names] is [program_args.name]; the result is
    the lines printed, how the loop ended and the final state.  An exception
    of [collect_results] ends the loop: [main] has no handler. *)
Fixpoint main_loop (udp : nat -> Query -> Addr -> Reply)
    (from_text : string -> Completion Name) (fuel : nat) (names : list string) (st : State)
    : option (list string * Completion unit * State) :=
  match names with
  | [] => Some ([], Normal tt, st)
  | a_domain_name :: more =>
      match collect_results udp from_text fuel a_domain_name st with
      | None => None
      | Some (Raised e, st') => Some ([], Raised e, st')
      | Some (Normal results, st') =>
          match main_loop udp from_text fuel more st' with
          | None => None
          | Some (printed, completion, st'') =>
              Some (print_results results ++ printed, completion, st'')
          end
      end
  end.

End Output.
(** ** The delegation locator, as specified *)

(** The ancestors of a name, most specific first: [labels[i:]] for every
    [i] in [range(len(labels))]. *)
Fixpoint ancestors (labels : list Label) : list Name :=
  match labels with
  | [] => []
  | _ :: rest => labels :: ancestors rest
  end.

(** An ancestor is usable when it has a cached NS entry and the A address of
    at least one of the NS targets of that entry is cached as well. *)
Definition usable (cache : gmap (list string * RdataType) Message) (parent : Name) : bool :=
  match cache !! (parent, rdatatype.NS) with
  | Some cached_response =>
      existsb (fun ns_name => bool_decide (cached_addresses cache ns_name ≠ []))
        (flat_map ns_targets (answer cached_response))
  | None => false
  end.

(** The cached addresses of the NS targets of an ancestor. *)
Definition delegation_addresses (cache : gmap (list string * RdataType) Message)
    (parent : Name) : list Addr :=
  match cache !! (parent, rdatatype.NS) with
  | Some cached_response =>
      flat_map (cached_addresses cache) (flat_map ns_targets (answer cached_response))
  | None => []
  end.

(** The first usable ancestor gives the nameserver set; the Root Hints are
    used when there is none. *)
Definition closest_delegation (cache : gmap (list string * RdataType) Message)
    (target_name : Name) : list Addr :=
  match find (usable cache) (ancestors target_name) with
  | Some parent => delegation_addresses cache parent
  | None => ROOT_SERVERS
  end.

(** ** Traces *)

(** An event that involves a nameserver set involves a non-empty one. *)
Definition served (ev : Event) : Prop :=
  match ev with
  | Cycle _ nameservers => nameservers ≠ []
  | Sent nameservers _ _ => nameservers ≠ []
  | Nested _ => True
  end.

(** [st'] is [st] after some more events, all of which satisfy [P]. *)
Definition extends (P : Event → Prop) (st st' : State) : Prop :=
  ∃ evs, trace st' = trace st ++ evs ∧ Forall P evs.

(** ** Alias chains *)

(** [alias_chain lookup_fn name st steps final st']: starting in [st], the
    CNAME lookups for [name] and then for each alias target in turn return
    a CNAME record until the lookup for [final] returns none; [steps] are
    the (alias, target) steps met on the way, in order, and [st'] is the
    state after the last lookup. *)
Inductive alias_chain
    (lookup_fn : Name → RdataType → State → option (Completion Message * State))
    : Name → State → list CnameResult → Name → State → Prop :=
| alias_chain_end (name : Name) st response st' :
    lookup_fn name rdatatype.CNAME st = Some (Normal response, st') →
    first_cname response = None →
    alias_chain lookup_fn name st [] name st'
| alias_chain_step (name : Name) st response st1 (target : Name) steps (final : Name) st' :
    lookup_fn name rdatatype.CNAME st = Some (Normal response, st1) →
    first_cname response = Some target →
    alias_chain lookup_fn target st1 steps final st' →
    alias_chain lookup_fn name st (mkCnameResult target name :: steps) final st'.

(** ** Helpers for statements about one cycle *)

(** The state after a datagram was sent to each nameserver of [remaining]
    in turn and nothing else happened. *)
Definition sent_all (nameservers : list Addr) (query : Query) (remaining : list Addr)
    (st : State) : State :=
  foldl (λ s ns, tick (log (Sent nameservers ns query) s)) st remaining.

(** The state in which the response to the datagram sent to [ns] is
    classified. *)
Definition sent_one (nameservers : list Addr) (ns : Addr) (query : Query) (st : State) : State :=
  tick (log (Sent nameservers ns query) st).

(** The address taken from each A RRset of an additional section: that of
    its first record ([additional[0].address]). *)
Definition glue_addresses (additionals : list RRset) : list Addr :=
  flat_map (λ rr, match rr_rdataset rr with
                  | A_rdataset (address :: _) => [address]
                  | _ => []
                  end) additionals.

(** The state in which the additional section of a referral has been read:
    the NS set of the referral and the glue are cached, unless their keys
    were cached before. *)
Definition referral_read (query : Query) (response : Message) (zone_name : Name)
    (st : State) : State :=
  (glue query (additional response) []
     (store_if_absent (zone_name, rdatatype.NS)
        (with_answer query (authority response)) st)).2.

(** The message a lookup of type [qtype] returns at once when it receives
    [response] to [query], for the responses that end a lookup. *)
Definition terminal (qtype : RdataType) (query : Query) (response : Message)
    : option Message :=
  match answer response with
  | _ :: _ =>
      if bool_decide (qtype = rdatatype.CNAME) then
        Some (if existsb is_cname (answer response) then response
              else make_response query)
      else
        match find is_cname (answer response) with
        | Some _ => None
        | None => Some response
        end
  | [] =>
      match authority response with
      | _ :: _ =>
          match flat_map ns_targets (authority response) with
          | [] => Some response
          | _ => None
          end
      | [] => None
      end
  end.

(** The state a lookup ends in when the first nameserver it asks gives the
    response it returns. *)
Definition answered (nameservers : list Addr) (ns : Addr) (target_name : Name)
    (qtype : RdataType) (returned : Message) (st : State) : State :=
  store (target_name, qtype) returned
    (sent_one nameservers ns (target_name, qtype)
       (log (Cycle target_name nameservers) st)).

(** The state a lookup ends in when no nameserver of its first cycle
    replies. *)
Definition unanswered (nameservers : list Addr) (target_name : Name)
    (qtype : RdataType) (st : State) : State :=
  store (target_name, qtype) (make_response (target_name, qtype))
    (sent_all nameservers (target_name, qtype) nameservers
       (log (Cycle target_name nameservers) st)).

(** ** Cache entries that survive *)

(** Every entry of the cache of [st] is in the cache of [st'], with the
    same value. *)
Definition preserves (st st' : State) : Prop :=
  ∀ k v, CACHE st !! k = Some v → CACHE st' !! k = Some v.

(** The same for every key but [key]. *)
Definition preserves_but (key : Name * RdataType) (st st' : State) : Prop :=
  ∀ k v, k ≠ key → CACHE st !! k = Some v → CACHE st' !! k = Some v.

(** Calls of [lookup] made one after the other, each with its own fuel and
    each started in the state the call before returned in; the result is
    the state the last one returns in. *)
Fixpoint lookups (udp : nat → Query → Addr → Reply)
    (calls : list (nat * Name * RdataType)) (st : State) : option State :=
  match calls with
  | [] => Some st
  | (fuel, target_name, qtype) :: more =>
      match lookup udp fuel target_name qtype st with
      | Some (_, st') => lookups udp more st'
      | None => None
      end
  end.

(** A reply that leaves an attempt without result: the transport failed, or
    the response has neither an answer nor an authority section. *)
Definition unusable (reply : Reply) : Prop :=
  match reply with
  | Failed _ => True
  | Received response => answer response = [] ∧ authority response = []
  end.

(** [steps] lead from [start] to [final]: each step is an alias of the name
    the step before ended with. *)
Fixpoint linked (start : Name) (steps : list CnameResult) (final : Name) : Prop :=
  match steps with
  | [] => start = final
  | step :: more => cname_alias step = start ∧ linked (cname_name step) more final
  end.

(** The shape of the response a lookup of type [qtype] returns when it is
    not served from the cache: for the type CNAME the answer section is
    empty or holds a CNAME RRset, for the other types it holds no CNAME
    RRset. *)
Definition shaped (qtype : RdataType) (response : Message) : Prop :=
  if bool_decide (qtype = rdatatype.CNAME) then
    answer response = [] ∨ existsb is_cname (answer response) = true
  else find is_cname (answer response) = None.

(** Every key that is cached in [st'] and was not cached in [st]
    satisfies [P]. *)
Definition adds_only (P : Name * RdataType → Prop) (st st' : State) : Prop :=
  ∀ k, CACHE st !! k = None → is_Some (CACHE st' !! k) → P k.

(** The keys a lookup may add besides its own: the NS key of a zone and
    the A key of a nameserver. *)
Definition delegation_key (k : Name * RdataType) : Prop :=
  k.2 = rdatatype.NS ∨ k.2 = rdatatype.A.

(** ** Scenarios

    Concrete names, messages and networks on which the engine is run. *)

Module Scenario.

Local Open Scope string_scope.

(** A fresh process: nothing cached, nothing sent. *)
Definition fresh : State := {| CACHE := ∅; clock := 0; trace := [] |}.

Definition www : Name := ["www"; "example"; "com"; ""].
Definition example_com : Name := ["example"; "com"; ""].

(** An address record for [www]. *)
Definition www_answer : Message :=
  {| question := (www, rdatatype.A); rcode := 0;
     answer := [mkRRset www (A_rdataset ["93.184.216.34"])];
     authority := []; additional := [] |}.

(** No nameserver ever replies. *)
Definition dead_net (t : nat) (query : Query) (ns : Addr) : Reply := Failed Timeout.

(** A CNAME RRset without records: indexing it raises [IndexError]. *)
Definition hollow_alias : Message :=
  {| question := (www, rdatatype.A); rcode := 0;
     answer := [mkRRset www (CNAME_rdataset [])];
     authority := []; additional := [] |}.

(** The first datagram gets a reply that [dns.query.udp] rejects, the
    second a reply with a hollow CNAME RRset, the third times out and the
    fourth is answered. *)
Definition flaky_net (t : nat) (query : Query) (ns : Addr) : Reply :=
  match t with
  | 0 => Failed BadResponse
  | 1 => Received hollow_alias
  | 2 => Failed Timeout
  | _ => Received www_answer
  end.



(** A refusal: an error code and three empty sections. *)
Definition refused : Message :=
  {| question := (www, rdatatype.A); rcode := 5;
     answer := []; authority := []; additional := [] |}.


(** A zone with the alias chain alpha → beta → gamma; every nameserver
    answers for it. *)
Definition alpha : Name := ["alpha"; ""].
Definition beta : Name := ["beta"; ""].
Definition gamma : Name := ["gamma"; ""].
Definition mail : Name := ["mail"; ""].

Definition reply_with (query : Query) (section : list RRset) : Reply :=
  Received {| question := query; rcode := 0; answer := section;
              authority := []; additional := [] |}.

Definition chain_net (t : nat) (query : Query) (ns : Addr) : Reply :=
  if decide (query = (alpha, rdatatype.CNAME)) then
    reply_with query [mkRRset alpha (CNAME_rdataset [beta])]
  else if decide (query = (beta, rdatatype.CNAME)) then
    reply_with query [mkRRset beta (CNAME_rdataset [gamma])]
  else if decide (query = (gamma, rdatatype.A)) then
    reply_with query [mkRRset gamma (A_rdataset ["192.0.2.7"])]
  else if decide (query = (gamma, rdatatype.MX)) then
    reply_with query [mkRRset gamma (MX_rdataset [(10%N, mail)])]
  else
    Received {| question := query; rcode := 0; answer := [];
                authority := [mkRRset [""] (SOA_rdataset [1%N])];
                additional := [] |}.

(** [www] is an alias for [example_com], which has an address; every
    nameserver answers for both. *)
Definition www_alias : Message :=
  {| question := (www, rdatatype.A); rcode := 0;
     answer := [mkRRset www (CNAME_rdataset [example_com])];
     authority := []; additional := [] |}.

Definition example_com_answer : Message :=
  {| question := (example_com, rdatatype.A); rcode := 0;
     answer := [mkRRset example_com (A_rdataset ["93.184.216.34"])];
     authority := []; additional := [] |}.

Definition alias_net (t : nat) (query : Query) (ns : Addr) : Reply :=
  if decide (query = (www, rdatatype.A)) then Received www_alias
  else if decide (query = (example_com, rdatatype.A)) then Received example_com_answer
  else Failed Timeout.

(** A delegation walk: the root servers refer to a server of [com] with
    glue, that server refers to a nameserver in another zone without
    glue, the root servers know the address of that nameserver, and the
    nameserver answers. *)
Definition com : Name := ["com"; ""].
Definition gtld : Name := ["a"; "gtld-servers"; "net"; ""].
Definition ns_example_net : Name := ["ns"; "example"; "net"; ""].

Definition com_referral : Message :=
  {| question := (www, rdatatype.A); rcode := 0; answer := [];
     authority := [mkRRset com (NS_rdataset [gtld])];
     additional := [mkRRset gtld (A_rdataset ["192.5.6.30"]);
                    mkRRset gtld (AAAA_rdataset ["2001:503:a83e::2:30"])] |}.

Definition example_referral : Message :=
  {| question := (www, rdatatype.A); rcode := 0; answer := [];
     authority := [mkRRset example_com (NS_rdataset [ns_example_net])];
     additional := [] |}.

Definition ns_example_net_answer : Message :=
  {| question := (ns_example_net, rdatatype.A); rcode := 0;
     answer := [mkRRset ns_example_net (A_rdataset ["198.51.100.1"])];
     authority := []; additional := [] |}.

Definition delegating_net (t : nat) (query : Query) (ns : Addr) : Reply :=
  if decide (ns = "198.51.100.1") then Received www_answer
  else if decide (ns = "192.5.6.30") then Received example_referral
  else if decide (query = (ns_example_net, rdatatype.A)) then
    Received ns_example_net_answer
  else Received com_referral.

(** A lame delegation: the root servers refer to two nameservers with
    glue; the first of them refers on to a nameserver in another zone
    without glue, whose address no root server gives (they time out); the
    second one answers. *)
Definition ns1 : Name := ["ns1"; "example"; "com"; ""].
Definition ns2 : Name := ["ns2"; "example"; "com"; ""].

Definition glued_referral : Message :=
  {| question := (www, rdatatype.A); rcode := 0; answer := [];
     authority := [mkRRset example_com (NS_rdataset [ns1; ns2])];
     additional := [mkRRset ns1 (A_rdataset ["10.0.0.1"]);
                    mkRRset ns2 (A_rdataset ["10.0.0.2"])] |}.

Definition lame_net (t : nat) (query : Query) (ns : Addr) : Reply :=
  if decide (query = (www, rdatatype.A)) then
    if decide (ns = "10.0.0.1") then Received example_referral
    else if decide (ns = "10.0.0.2") then Received www_answer
    else Received glued_referral
  else Failed Timeout.

Definition lame_set : list Addr := ["10.0.0.1"; "10.0.0.2"].

(** The states of the lookup of [www] on [lame_net]: when its second cycle
    starts, when the referral of the first glued nameserver has been read,
    when the nested lookup of [ns_example_net] has failed, and at the end. *)
Definition lame_second_cycle : State :=
  referral_read (www, rdatatype.A) glued_referral example_com
    (sent_one ROOT_SERVERS "198.41.0.4" (www, rdatatype.A)
       (log (Cycle www ROOT_SERVERS) fresh)).

Definition lame_referred : State :=
  referral_read (www, rdatatype.A) example_referral example_com
    (sent_one lame_set "10.0.0.1" (www, rdatatype.A)
       (log (Cycle www lame_set) lame_second_cycle)).

Definition lame_unresolved : State :=
  unanswered ROOT_SERVERS ns_example_net rdatatype.A
    (log (Nested ns_example_net) lame_referred).

Definition lame_end : State :=
  store (www, rdatatype.A) www_answer
    (sent_one lame_set "10.0.0.2" (www, rdatatype.A) lame_unresolved).

(** A zone served by its own apex, delegated without glue: the first root
    server refers [example_com] to the nameserver [example_com]; the next
    thirteen datagrams time out; after that the root servers answer. *)
Definition apex_referral : Message :=
  {| question := (example_com, rdatatype.A); rcode := 0; answer := [];
     authority := [mkRRset example_com (NS_rdataset [example_com])];
     additional := [] |}.

Definition reentrant_net (t : nat) (query : Query) (ns : Addr) : Reply :=
  if decide (t = 0) then Received apex_referral
  else if decide (t ≤ 13)%nat then Failed Timeout
  else Received example_com_answer.

(** The states of the lookup of [example_com] on [reentrant_net]: when the
    referral has been read, when the nested lookup has failed, and at the
    end. *)
Definition apex_referred : State :=
  referral_read (example_com, rdatatype.A) apex_referral example_com
    (sent_one ROOT_SERVERS "198.41.0.4" (example_com, rdatatype.A)
       (log (Cycle example_com ROOT_SERVERS) fresh)).

Definition apex_unresolved : State :=
  unanswered ROOT_SERVERS example_com rdatatype.A
    (log (Nested example_com) apex_referred).

Definition apex_end : State :=
  store (example_com, rdatatype.A) example_com_answer
    (sent_one ROOT_SERVERS "199.9.14.201" (example_com, rdatatype.A) apex_unresolved).

(** A cache in which the closest zone with an NS entry has no cached
    address, while the zone above it has one. *)
Definition partial_cache : gmap (list string * RdataType) Message :=
  <[(example_com, rdatatype.NS) :=
      with_answer (www, rdatatype.A) [mkRRset example_com (NS_rdataset [ns1; ns2])]]>
  (<[(com, rdatatype.NS) :=
      with_answer (www, rdatatype.A) [mkRRset com (NS_rdataset [gtld])]]>
  (<[(gtld, rdatatype.A) :=
      with_answer (www, rdatatype.A) [mkRRset gtld (A_rdataset ["192.5.6.30"])]]> ∅)).

(** The responses of [chain_net] and the states of the process while
    [collect_results] resolves [alpha] on it: after each of the six lookups
    the first root server has answered and the response is cached. *)
Definition chain_response (query : Query) (section : list RRset) : Message :=
  {| question := query; rcode := 0; answer := section;
     authority := []; additional := [] |}.

Definition chain_nodata (query : Query) : Message :=
  {| question := query; rcode := 0; answer := [];
     authority := [mkRRset [""] (SOA_rdataset [1%N])]; additional := [] |}.

Definition alpha_cname : Message :=
  chain_response (alpha, rdatatype.CNAME) [mkRRset alpha (CNAME_rdataset [beta])].
Definition beta_cname : Message :=
  chain_response (beta, rdatatype.CNAME) [mkRRset beta (CNAME_rdataset [gamma])].
Definition gamma_a : Message :=
  chain_response (gamma, rdatatype.A) [mkRRset gamma (A_rdataset ["192.0.2.7"])].
Definition gamma_mx : Message :=
  chain_response (gamma, rdatatype.MX) [mkRRset gamma (MX_rdataset [(10%N, mail)])].

Definition chain_s1 : State :=
  answered ROOT_SERVERS "198.41.0.4" alpha rdatatype.CNAME alpha_cname fresh.
Definition chain_s2 : State :=
  answered ROOT_SERVERS "198.41.0.4" beta rdatatype.CNAME beta_cname chain_s1.
Definition chain_s3 : State :=
  answered ROOT_SERVERS "198.41.0.4" gamma rdatatype.CNAME
    (chain_nodata (gamma, rdatatype.CNAME)) chain_s2.
Definition chain_s4 : State :=
  answered ROOT_SERVERS "198.41.0.4" gamma rdatatype.A gamma_a chain_s3.
Definition chain_s5 : State :=
  answered ROOT_SERVERS "198.41.0.4" gamma rdatatype.AAAA
    (chain_nodata (gamma, rdatatype.AAAA)) chain_s4.
Definition chain_s6 : State :=
  answered ROOT_SERVERS "198.41.0.4" gamma rdatatype.MX gamma_mx chain_s5.

Definition chain_results : Results :=
  {| results_CNAME := [mkCnameResult beta alpha; mkCnameResult gamma beta];
     results_A := [mkAddressResult gamma "192.0.2.7"];
     results_AAAA := [];
     results_MX := [mkMxResult gamma 10 mail] |}.

(** [str(name)] for the names of the scenarios, whose labels need no
    escaping: the labels joined by dots; an absolute name ends with the empty
    root label, hence with a dot. *)
Fixpoint join_labels (labels : list Label) : string :=
  match labels with
  | [] => ""
  | [label] => label
  | label :: more => label +:+ "." +:+ join_labels more
  end.

Definition dotted (name : Name) : string :=
  match name with
  | [] => "@"
  | [""] => "."
  | _ => join_labels name
  end.

(** Every nameserver refuses. *)
Definition refusing_all_net (t : nat) (query : Query) (ns : Addr) : Reply :=
  Received refused.

(** [www] is an alias for [example_com], for which no nameserver replies. *)
Definition dangling_net (t : nat) (query : Query) (ns : Addr) : Reply :=
  if decide (query = (www, rdatatype.A)) then Received www_alias
  else Failed Timeout.

(** The first root server refers to [example_com] with one glued
    nameserver that has two addresses; the first address is silent, the
    second one answers. *)
Definition twin_referral : Message :=
  {| question := (www, rdatatype.A); rcode := 0; answer := [];
     authority := [mkRRset example_com (NS_rdataset [ns1])];
     additional := [mkRRset ns1 (A_rdataset ["10.0.0.1"; "10.0.0.2"])] |}.

Definition twin_net (t : nat) (query : Query) (ns : Addr) : Reply :=
  if decide (ns = "198.41.0.4") then Received twin_referral
  else if decide (ns = "10.0.0.2") then Received www_answer
  else Failed Timeout.

(** The states of the lookup of [www] on [twin_net]: when the referral has
    been read, and at the end. *)
Definition twin_referred : State :=
  referral_read (www, rdatatype.A) twin_referral example_com
    (sent_one ROOT_SERVERS "198.41.0.4" (www, rdatatype.A)
       (log (Cycle www ROOT_SERVERS) fresh)).

Definition twin_end : State :=
  store (www, rdatatype.A) (make_response (www, rdatatype.A))
    (sent_all ["10.0.0.1"] (www, rdatatype.A) ["10.0.0.1"]
       (log (Cycle www ["10.0.0.1"]) twin_referred)).

(** [dns.name.from_text] on the texts of the scenarios (no escape, no label
    over 63 bytes): the labels are the pieces between the dots, the root
    label is added to a text that does not end with a dot, and an empty
    label anywhere else raises. *)
Fixpoint split_labels (text : string) : list Label :=
  match text with
  | EmptyString => [""]
  | String c rest =>
      if bool_decide (String c "" = ".") then "" :: split_labels rest
      else match split_labels rest with
           | label :: more => String c label :: more
           | [] => [String c ""]
           end
  end.

Definition from_text (text : string) : Completion Name :=
  if bool_decide (text = "" ∨ text = ".") then Normal [""]
  else
    let pieces := split_labels text in
    let labels := if bool_decide (last pieces = Some "") then removelast pieces
                  else pieces in
    if bool_decide ("" ∈ labels) then Raised EmptyLabel
    else Normal (labels ++ [""])%list.

End Scenario.

(** ** Statements the code does not satisfy *)



(** When the NS targets of a glueless referral give no address, the lookup
    either ends with the empty response or sends every later datagram to
    the Root Hints. *)
Definition no_candidates_as_stated : Prop :=
  ∀ udp lookup_rec cache_key qtype fuel (current_target : Name) tried ns rest
    outbound_query st outbound_query1 st1 response authority0 authority_more st3 c st',
    let nameservers := tried ++ ns :: rest in
    let query := make_query current_target qtype in
    let st2 := referral_read query response (rr_name authority0)
                 (sent_one nameservers ns query st1) in
    for_ns udp lookup_rec cache_key qtype current_target nameservers tried outbound_query
      (log (Cycle current_target nameservers) st) = Some (Continue, outbound_query1, st1) →
    udp (clock st1) query ns = Received response →
    answer response = [] →
    authority response = authority0 :: authority_more →
    flat_map ns_targets (authority response) ≠ [] →
    Forall (λ rr, rr_rdataset rr ≠ A_rdataset []) (additional response) →
    glue_addresses (additional response) = [] →
    glueless lookup_rec (flat_map ns_targets (authority response)) st2 = Some ([], st3) →
    while_true udp lookup_rec cache_key qtype (S fuel) current_target nameservers
      outbound_query st = Some (c, st') →
    c = Normal (make_response query)
    ∨ ∀ nss ns' query',
        Sent nss ns' query' ∈ drop (length (trace st3)) (trace st') → nss = ROOT_SERVERS.

(** Closed goals that compute to a small value. *)
Ltac run := vm_compute; reflexivity.
(** * Properties *)

(** ** The cache and the state *)

Lemma lookup_hit udp fuel (target_name : Name) qtype st cached :
  CACHE st !! (target_name, qtype) = Some cached →
  lookup udp (S fuel) target_name qtype st = Some (Normal cached, st).
Proof. intros H. cbn. by rewrite H. Qed.

Lemma lookup_miss udp fuel (target_name : Name) qtype st :
  CACHE st !! (target_name, qtype) = None →
  lookup udp (S fuel) target_name qtype st =
  while_true udp (lookup udp fuel) (target_name, qtype) qtype fuel target_name
    (select_nameservers (CACHE st) target_name) None st.
Proof. intros H. cbn. by rewrite H. Qed.

Lemma ROOT_SERVERS_nonempty : ROOT_SERVERS ≠ [].
Proof. discriminate. Qed.

Lemma select_nameservers_nonempty cache (target_name : Name) :
  select_nameservers cache target_name ≠ [].
Proof.
  unfold select_nameservers.
  destruct (closest_loop cache target_name None) as [[|ns more]|];
    auto using ROOT_SERVERS_nonempty.
Qed.

Lemma trace_store key response st : trace (store key response st) = trace st.
Proof. reflexivity. Qed.

Lemma trace_store_if_absent key response st :
  trace (store_if_absent key response st) = trace st.
Proof. unfold store_if_absent. by destruct (CACHE st !! key). Qed.

Lemma clock_store_if_absent key response st :
  clock (store_if_absent key response st) = clock st.
Proof. unfold store_if_absent. by destruct (CACHE st !! key). Qed.

Lemma extends_refl P st : extends P st st.
Proof. exists []. by rewrite app_nil_r. Qed.

Lemma extends_trans P st1 st2 st3 :
  extends P st1 st2 → extends P st2 st3 → extends P st1 st3.
Proof.
  intros (evs1 & H1 & F1) (evs2 & H2 & F2). exists (evs1 ++ evs2).
  rewrite H2, H1, app_assoc. split; [done | by apply Forall_app].
Qed.

Lemma extends_same P st st' : trace st' = trace st → extends P st st'.
Proof. intros H. exists []. by rewrite H, app_nil_r. Qed.

Lemma extends_log P ev st : P ev → extends P st (log ev st).
Proof. intros H. exists [ev]. split; [done | by constructor]. Qed.

Lemma glue_trace query additionals new_nameservers st :
  trace (glue query additionals new_nameservers st).2 = trace st.
Proof.
  revert new_nameservers st.
  induction additionals as [|rr more IH]; intros acc st; cbn; [done|].
  destruct (rr_rdataset rr) as [[|a l]| | | | | |]; cbn; rewrite ?IH; try done.
  apply trace_store_if_absent.
Qed.

Lemma glue_clock query additionals new_nameservers st :
  clock (glue query additionals new_nameservers st).2 = clock st.
Proof.
  revert new_nameservers st.
  induction additionals as [|rr more IH]; intros acc st; cbn; [done|].
  destruct (rr_rdataset rr) as [[|a l]| | | | | |]; cbn; rewrite ?IH; try done.
  apply clock_store_if_absent.
Qed.

(** ** The loop never runs on an empty nameserver set *)

Section LoopFacts.

Variable udp : nat → Query → Addr → Reply.
Variable lookup_rec : Name → RdataType → State → option (Completion Message * State).
Variable cache_key : Name * RdataType.
Variable qtype : RdataType.

Lemma classify_break_nonempty (current_target : Name) query response st target nss st' :
  classify lookup_rec cache_key qtype current_target query response st
    = Some (Normal (Break target nss), st') →
  nss ≠ [].
Proof.
  unfold classify. intros H.
  repeat case_match; simplify_eq; auto using ROOT_SERVERS_nonempty.
Qed.

Lemma attempt_break_nonempty (current_target : Name) nameservers ns st target nss st' :
  attempt udp lookup_rec cache_key qtype current_target nameservers ns st
    = Some (Break target nss, st') →
  nss ≠ [].
Proof.
  unfold attempt, attempt_body. intros H.
  repeat case_match; simplify_eq; eauto using classify_break_nonempty.
Qed.

Lemma for_ns_break_nonempty (current_target : Name) nameservers remaining oq st
    target nss oq' st' :
  for_ns udp lookup_rec cache_key qtype current_target nameservers remaining oq st
    = Some (Break target nss, oq', st') →
  nss ≠ [].
Proof.
  revert oq st. induction remaining as [|ns more IH]; intros oq st; cbn; [done|].
  destruct (attempt _ _ _ _ _ _ _ _) as [[[] st1]|] eqn:E; intros H; simplify_eq;
    eauto using attempt_break_nonempty.
Qed.

(** After the loop [outbound_query] is bound as soon as one nameserver was
    tried. *)
Lemma for_ns_outbound (current_target : Name) nameservers remaining oq st flow oq' st' :
  for_ns udp lookup_rec cache_key qtype current_target nameservers remaining oq st
    = Some (flow, oq', st') →
  oq' = match remaining with
        | [] => oq
        | _ => Some (make_query current_target qtype)
        end.
Proof.
  revert oq st. induction remaining as [|ns more IH]; intros oq st; cbn.
  { by intros [= _ <- _]. }
  destruct (attempt _ _ _ _ _ _ _ _) as [[[] st1]|] eqn:E; intros H; simplify_eq; try done.
  apply IH in H. by destruct more.
Qed.

Lemma while_true_normal fuel (current_target : Name) nameservers oq st c st' :
  nameservers ≠ [] →
  while_true udp lookup_rec cache_key qtype fuel current_target nameservers oq st
    = Some (c, st') →
  ∃ response, c = Normal response.
Proof.
  revert current_target nameservers oq st.
  induction fuel as [|fuel IH]; intros target nss oq st Hne; cbn; [done|].
  destruct (for_ns _ _ _ _ _ _ _ _ _) as [[[flow oq1] st1]|] eqn:E; [|done].
  destruct flow as [|response|target' nss'].
  - apply for_ns_outbound in E. destruct nss; [done|]. subst oq1.
    intros [= <- _]. eauto.
  - intros [= <- _]. eauto.
  - apply for_ns_break_nonempty in E. eauto.
Qed.

End LoopFacts.

Lemma lookup_normal udp fuel (target_name : Name) qtype st c st' :
  lookup udp fuel target_name qtype st = Some (c, st') →
  ∃ response, c = Normal response.
Proof.
  destruct fuel as [|fuel]; cbn; [done|].
  destruct (CACHE st !! (target_name, qtype)) as [cached|].
  - intros [= <- _]. eauto.
  - apply while_true_normal, select_nameservers_nonempty.
Qed.

(** ** Every cycle and every query is served by a non-empty set *)

Section TraceFacts.

Variable udp : nat → Query → Addr → Reply.
Variable lookup_rec : Name → RdataType → State → option (Completion Message * State).
Variable cache_key : Name * RdataType.
Variable qtype : RdataType.

Hypothesis lookup_rec_served : ∀ (n : Name) q st c st',
  lookup_rec n q st = Some (c, st') → extends served st st'.

Lemma glueless_served ns_names st found st' :
  glueless lookup_rec ns_names st = Some (found, st') → extends served st st'.
Proof using lookup_rec_served.
  revert st. induction ns_names as [|ns_name more IH]; intros st; cbn.
  { intros [= _ <-]. apply extends_refl. }
  destruct (lookup_rec ns_name rdatatype.A _) as [[c st1]|] eqn:E; [|done].
  apply lookup_rec_served in E.
  assert (extends served st st1) as Hst1.
  { eapply extends_trans; [|exact E]. by apply extends_log. }
  intros H. destruct c as [ns_response|e].
  - destruct (flat_map a_addresses (answer ns_response)); simplify_eq;
      eauto using extends_trans.
  - eauto using extends_trans.
Qed.

Lemma classify_served (current_target : Name) query response st c st' :
  classify lookup_rec cache_key qtype current_target query response st = Some (c, st') →
  extends served st st'.
Proof using lookup_rec_served.
  unfold classify. intros H.
  repeat case_match; simplify_eq;
    try (apply extends_same; done);
    try (apply extends_refl).
  all: match goal with
       | Hg : glue ?q ?a ?n ?s = (_, ?s2) |- _ =>
           pose proof (glue_trace q a n s) as Ht; rewrite Hg in Ht; cbn in Ht;
           rewrite trace_store_if_absent in Ht
       end.
  all: try (by apply extends_same).
  all: eapply extends_trans; [by apply extends_same | eauto using glueless_served].
Qed.

Lemma attempt_served (current_target : Name) nameservers ns st flow st' :
  nameservers ≠ [] →
  attempt udp lookup_rec cache_key qtype current_target nameservers ns st
    = Some (flow, st') →
  extends served st st'.
Proof using lookup_rec_served.
  intros Hne. unfold attempt, attempt_body. intros H.
  assert (extends served st
            (tick (log (Sent nameservers ns (make_query current_target qtype)) st)))
    as Hsent.
  { eapply extends_trans;
      [apply (extends_log served (Sent nameservers ns (make_query current_target qtype)));
       exact Hne | by apply extends_same]. }
  repeat case_match; simplify_eq; eauto using extends_trans, classify_served.
Qed.

Lemma for_ns_served (current_target : Name) nameservers remaining oq st flow oq' st' :
  nameservers ≠ [] →
  for_ns udp lookup_rec cache_key qtype current_target nameservers remaining oq st
    = Some (flow, oq', st') →
  extends served st st'.
Proof using lookup_rec_served.
  intros Hne. revert oq st.
  induction remaining as [|ns more IH]; intros oq st; cbn.
  { intros [= _ _ <-]. apply extends_refl. }
  destruct (attempt _ _ _ _ _ _ _ _) as [[flow1 st1]|] eqn:E; [|done].
  apply attempt_served in E; [|done].
  destruct flow1; intros H; simplify_eq; eauto using extends_trans.
Qed.

Lemma while_true_served fuel (current_target : Name) nameservers oq st c st' :
  nameservers ≠ [] →
  while_true udp lookup_rec cache_key qtype fuel current_target nameservers oq st
    = Some (c, st') →
  extends served st st'.
Proof using lookup_rec_served.
  revert current_target nameservers oq st.
  induction fuel as [|fuel IH]; intros target nss oq st Hne; cbn; [done|].
  destruct (for_ns _ _ _ _ _ _ _ _ _) as [[[flow oq1] st1]|] eqn:E; [|done].
  assert (extends served st st1) as Hst1.
  { eapply extends_trans; [apply (extends_log served (Cycle target nss)); exact Hne|].
    by eapply for_ns_served. }
  destruct flow as [|response|target' nss'].
  - destruct oq1; intros [= _ <-]; [|done].
    eapply extends_trans; [exact Hst1 | by apply extends_same].
  - by intros [= _ <-].
  - apply for_ns_break_nonempty in E. eauto using extends_trans.
Qed.

End TraceFacts.

Lemma lookup_served udp fuel (target_name : Name) qtype st c st' :
  lookup udp fuel target_name qtype st = Some (c, st') → extends served st st'.
Proof.
  revert target_name qtype st c st'.
  induction fuel as [|fuel IH]; intros n q st c st'; cbn; [done|].
  destruct (CACHE st !! (n, q)) as [cached|].
  - intros [= _ <-]. apply extends_refl.
  - apply while_true_served; [exact IH | apply select_nameservers_nonempty].
Qed.

(** ** Stepping through one cycle *)

Section CycleFacts.

Variable udp : nat → Query → Addr → Reply.
Variable lookup_rec : Name → RdataType → State → option (Completion Message * State).
Variable cache_key : Name * RdataType.
Variable qtype : RdataType.

Lemma attempt_failed (current_target : Name) nameservers ns st e :
  udp (clock st) (make_query current_target qtype) ns = Failed e →
  attempt udp lookup_rec cache_key qtype current_target nameservers ns st
  = Some (Continue, sent_one nameservers ns (make_query current_target qtype) st).
Proof. intros H. unfold attempt, attempt_body. rewrite H. by destruct e. Qed.

Lemma attempt_received (current_target : Name) nameservers ns st response :
  udp (clock st) (make_query current_target qtype) ns = Received response →
  attempt udp lookup_rec cache_key qtype current_target nameservers ns st
  = match classify lookup_rec cache_key qtype current_target
            (make_query current_target qtype) response
            (sent_one nameservers ns (make_query current_target qtype) st) with
    | None => None
    | Some (Normal flow, st') => Some (flow, st')
    | Some (Raised _, st') => Some (Continue, st')
    end.
Proof. intros H. unfold attempt, attempt_body. by rewrite H. Qed.

(** The nameservers of [tried] were tried without result. *)
Lemma for_ns_app (current_target : Name) nameservers tried rest oq st oq1 st1 :
  for_ns udp lookup_rec cache_key qtype current_target nameservers tried oq st
    = Some (Continue, oq1, st1) →
  for_ns udp lookup_rec cache_key qtype current_target nameservers (tried ++ rest) oq st
  = for_ns udp lookup_rec cache_key qtype current_target nameservers rest oq1 st1.
Proof.
  revert oq st. induction tried as [|ns more IH]; intros oq st; cbn.
  { by intros [= <- <-]. }
  destruct (attempt _ _ _ _ _ _ _ _) as [[[] st2]|]; intros H; simplify_eq.
  by apply IH.
Qed.

(** The loop stops at the first nameserver whose attempt does not end
    with [continue]. *)
Lemma for_ns_stops (current_target : Name) nameservers tried ns rest oq st oq1 st1
    flow st2 :
  for_ns udp lookup_rec cache_key qtype current_target nameservers tried oq st
    = Some (Continue, oq1, st1) →
  attempt udp lookup_rec cache_key qtype current_target nameservers ns st1
    = Some (flow, st2) →
  flow ≠ Continue →
  for_ns udp lookup_rec cache_key qtype current_target nameservers
    (tried ++ ns :: rest) oq st
  = Some (flow, Some (make_query current_target qtype), st2).
Proof.
  intros Htried Hns Hflow. rewrite (for_ns_app _ _ _ _ _ _ _ _ Htried).
  cbn. rewrite Hns. by destruct flow.
Qed.

Lemma for_ns_continues (current_target : Name) nameservers tried ns oq st oq1 st1 st2 :
  for_ns udp lookup_rec cache_key qtype current_target nameservers tried oq st
    = Some (Continue, oq1, st1) →
  attempt udp lookup_rec cache_key qtype current_target nameservers ns st1
    = Some (Continue, st2) →
  for_ns udp lookup_rec cache_key qtype current_target nameservers (tried ++ [ns]) oq st
  = Some (Continue, Some (make_query current_target qtype), st2).
Proof.
  intros Htried Hns. rewrite (for_ns_app _ _ _ _ _ _ _ _ Htried).
  cbn. by rewrite Hns.
Qed.

Lemma clock_sent_all nameservers query remaining st :
  clock (sent_all nameservers query remaining st) = clock st + length remaining.
Proof.
  revert st. induction remaining as [|ns more IH]; intros st; cbn; [lia|].
  unfold sent_all in IH. rewrite IH. cbn. lia.
Qed.

Lemma CACHE_sent_all nameservers query remaining st :
  CACHE (sent_all nameservers query remaining st) = CACHE st.
Proof.
  revert st. induction remaining as [|ns more IH]; intros st; cbn; [done|].
  unfold sent_all in IH. by rewrite IH.
Qed.

(** When every datagram fails the loop runs to its end and only the
    clock and the trace change. *)
Lemma for_ns_all_failed (current_target : Name) nameservers remaining oq st :
  (∀ i ns, remaining !! i = Some ns →
     ∃ e, udp (clock st + i) (make_query current_target qtype) ns = Failed e) →
  for_ns udp lookup_rec cache_key qtype current_target nameservers remaining oq st
  = Some (Continue,
          match remaining with
          | [] => oq
          | _ => Some (make_query current_target qtype)
          end,
          sent_all nameservers (make_query current_target qtype) remaining st).
Proof.
  revert oq st. induction remaining as [|ns more IH]; intros oq st Hfail; [done|].
  cbn [for_ns].
  destruct (Hfail 0 ns eq_refl) as [e He]. rewrite Nat.add_0_r in He.
  rewrite (attempt_failed _ _ _ _ _ He). rewrite IH.
  - by destruct more.
  - intros i ns' Hi. destruct (Hfail (S i) ns' Hi) as [e' He'].
    exists e'. cbn. by rewrite <- Nat.add_succ_r.
Qed.

End CycleFacts.

(** ** From one attempt to the whole cycle *)

Section WhileFacts.

Variable udp : nat → Query → Addr → Reply.
Variable lookup_rec : Name → RdataType → State → option (Completion Message * State).
Variable cache_key : Name * RdataType.
Variable qtype : RdataType.

Lemma while_true_returns fuel (current_target : Name) tried ns rest oq st oq1 st1
    response st2 :
  for_ns udp lookup_rec cache_key qtype current_target (tried ++ ns :: rest) tried oq
    (log (Cycle current_target (tried ++ ns :: rest)) st) = Some (Continue, oq1, st1) →
  attempt udp lookup_rec cache_key qtype current_target (tried ++ ns :: rest) ns st1
    = Some (Return response, st2) →
  while_true udp lookup_rec cache_key qtype (S fuel) current_target
    (tried ++ ns :: rest) oq st
  = Some (Normal response, st2).
Proof.
  intros Htried Hns. cbn [while_true].
  by rewrite (for_ns_stops _ _ _ _ _ _ _ _ _ _ _ _ _ _ _ Htried Hns).
Qed.

Lemma while_true_breaks fuel (current_target : Name) tried ns rest oq st oq1 st1
    (current_target' : Name) nameservers' st2 :
  for_ns udp lookup_rec cache_key qtype current_target (tried ++ ns :: rest) tried oq
    (log (Cycle current_target (tried ++ ns :: rest)) st) = Some (Continue, oq1, st1) →
  attempt udp lookup_rec cache_key qtype current_target (tried ++ ns :: rest) ns st1
    = Some (Break current_target' nameservers', st2) →
  while_true udp lookup_rec cache_key qtype (S fuel) current_target
    (tried ++ ns :: rest) oq st
  = while_true udp lookup_rec cache_key qtype fuel current_target' nameservers'
      (Some (make_query current_target qtype)) st2.
Proof.
  intros Htried Hns. cbn [while_true].
  by rewrite (for_ns_stops _ _ _ _ _ _ _ _ _ _ _ _ _ _ _ Htried Hns).
Qed.

Lemma for_ns_moves_on (current_target : Name) tried ns rest oq st oq1 st1 st2 :
  for_ns udp lookup_rec cache_key qtype current_target (tried ++ ns :: rest) tried oq st
    = Some (Continue, oq1, st1) →
  attempt udp lookup_rec cache_key qtype current_target (tried ++ ns :: rest) ns st1
    = Some (Continue, st2) →
  for_ns udp lookup_rec cache_key qtype current_target (tried ++ ns :: rest)
    (tried ++ ns :: rest) oq st
  = for_ns udp lookup_rec cache_key qtype current_target (tried ++ ns :: rest) rest
      (Some (make_query current_target qtype)) st2.
Proof.
  intros Htried Hns. rewrite (for_ns_app _ _ _ _ _ _ _ _ _ _ _ _ Htried).
  cbn [for_ns]. by rewrite Hns.
Qed.

End WhileFacts.

(** ** What is returned is what is cached under the original key *)

Section CachedFacts.

Variable udp : nat → Query → Addr → Reply.
Variable lookup_rec : Name → RdataType → State → option (Completion Message * State).
Variable cache_key : Name * RdataType.
Variable qtype : RdataType.

Lemma classify_return_cached (current_target : Name) query response st returned st' :
  classify lookup_rec cache_key qtype current_target query response st
    = Some (Normal (Return returned), st') →
  CACHE st' !! cache_key = Some returned.
Proof.
  unfold classify. intros H.
  repeat case_match; simplify_eq; cbn; apply lookup_insert_eq.
Qed.

Lemma attempt_return_cached (current_target : Name) nameservers ns st returned st' :
  attempt udp lookup_rec cache_key qtype current_target nameservers ns st
    = Some (Return returned, st') →
  CACHE st' !! cache_key = Some returned.
Proof.
  unfold attempt, attempt_body. intros H.
  repeat case_match; simplify_eq; eauto using classify_return_cached.
Qed.

Lemma for_ns_return_cached (current_target : Name) nameservers remaining oq st
    returned oq' st' :
  for_ns udp lookup_rec cache_key qtype current_target nameservers remaining oq st
    = Some (Return returned, oq', st') →
  CACHE st' !! cache_key = Some returned.
Proof.
  revert oq st. induction remaining as [|ns more IH]; intros oq st; cbn; [done|].
  destruct (attempt _ _ _ _ _ _ _ _) as [[[] st1]|] eqn:E; intros H; simplify_eq;
    eauto using attempt_return_cached.
Qed.

Lemma while_true_cached fuel (current_target : Name) nameservers oq st returned st' :
  while_true udp lookup_rec cache_key qtype fuel current_target nameservers oq st
    = Some (Normal returned, st') →
  CACHE st' !! cache_key = Some returned.
Proof.
  revert current_target nameservers oq st.
  induction fuel as [|fuel IH]; intros target nss oq st; cbn; [done|].
  destruct (for_ns _ _ _ _ _ _ _ _ _) as [[[flow oq1] st1]|] eqn:E; [|done].
  destruct flow as [|response|target' nss'].
  - destruct oq1; intros [= <- <-]. cbn. apply lookup_insert_eq.
  - intros [= <- <-]. by eapply for_ns_return_cached.
  - apply IH.
Qed.

End CachedFacts.

Lemma lookup_cached udp fuel (target_name : Name) qtype st returned st' :
  lookup udp fuel target_name qtype st = Some (Normal returned, st') →
  CACHE st' !! (target_name, qtype) = Some returned.
Proof.
  destruct fuel as [|fuel]; cbn; [done|].
  destruct (CACHE st !! (target_name, qtype)) as [cached|] eqn:E.
  - by intros [= <- <-].
  - apply while_true_cached.
Qed.

(** ** Referrals *)

Lemma glue_normal query additionals new_nameservers st :
  Forall (λ rr, rr_rdataset rr ≠ A_rdataset []) additionals →
  (glue query additionals new_nameservers st).1
  = Normal (new_nameservers ++ glue_addresses additionals).
Proof.
  intros Hall. revert new_nameservers st.
  induction Hall as [|rr more Hrr _ IH]; intros acc st; cbn.
  { by rewrite app_nil_r. }
  destruct (rr_rdataset rr) as [[|a l]| | | | | |]; cbn; rewrite ?IH; try done.
  by rewrite <- app_assoc.
Qed.

Lemma referral_read_trace query response (zone_name : Name) st :
  trace (referral_read query response zone_name st) = trace st.
Proof. unfold referral_read. by rewrite glue_trace, trace_store_if_absent. Qed.

Lemma referral_read_clock query response (zone_name : Name) st :
  clock (referral_read query response zone_name st) = clock st.
Proof. unfold referral_read. by rewrite glue_clock, clock_store_if_absent. Qed.

Section ReferralFacts.

Variable udp : nat → Query → Addr → Reply.
Variable lookup_rec : Name → RdataType → State → option (Completion Message * State).
Variable cache_key : Name * RdataType.
Variable qtype : RdataType.

(** The NS targets of [skipped] gave no address. *)
Lemma glueless_app skipped later st st1 :
  glueless lookup_rec skipped st = Some ([], st1) →
  glueless lookup_rec (skipped ++ later) st = glueless lookup_rec later st1.
Proof.
  revert st. induction skipped as [|ns_name more IH]; intros st; cbn.
  { by intros [= <-]. }
  destruct (lookup_rec ns_name rdatatype.A _) as [[[ns_response|e] st2]|]; [| |done].
  - destruct (flat_map a_addresses (answer ns_response)); [apply IH | done].
  - apply IH.
Qed.

(** The loop over the NS targets stops at the first one with an address. *)
Lemma glueless_stops skipped (ns_name : Name) later st st1 ns_response st2 :
  glueless lookup_rec skipped st = Some ([], st1) →
  lookup_rec ns_name rdatatype.A (log (Nested ns_name) st1)
    = Some (Normal ns_response, st2) →
  flat_map a_addresses (answer ns_response) ≠ [] →
  glueless lookup_rec (skipped ++ ns_name :: later) st
  = Some (flat_map a_addresses (answer ns_response), st2).
Proof.
  intros Hskipped Hlookup Hfound. rewrite (glueless_app _ _ _ _ Hskipped).
  cbn. rewrite Hlookup. by destruct (flat_map a_addresses (answer ns_response)).
Qed.

(** What [classify] does with a referral whose additional section has no
    hollow A RRset. *)
Lemma classify_referral (current_target : Name) query response authority0 more st :
  answer response = [] →
  authority response = authority0 :: more →
  flat_map ns_targets (authority response) ≠ [] →
  Forall (λ rr, rr_rdataset rr ≠ A_rdataset []) (additional response) →
  classify lookup_rec cache_key qtype current_target query response st
  = let st2 := referral_read query response (rr_name authority0) st in
    match glue_addresses (additional response) with
    | ns :: others => Some (Normal (Break current_target (ns :: others)), st2)
    | [] =>
        match glueless lookup_rec (flat_map ns_targets (authority response)) st2 with
        | None => None
        | Some ([], st3) => Some (Normal Continue, st3)
        | Some (new_nameservers, st3) =>
            Some (Normal (Break current_target new_nameservers), st3)
        end
    end.
Proof.
  intros Hanswer Hauthority Hns Hglue. unfold classify, referral_read.
  rewrite Hanswer, Hauthority. rewrite <- Hauthority.
  destruct (flat_map ns_targets (authority response)) as [|ns_name ns_names] eqn:E;
    [done|].
  pose proof (glue_normal query (additional response) []
                (store_if_absent (rr_name authority0, rdatatype.NS)
                   (with_answer query (authority response)) st) Hglue) as Hg.
  destruct (glue query (additional response) [] _) as [c st2]. cbn in Hg. subst c.
  cbn [app snd]. by destruct (glue_addresses (additional response)).
Qed.

End ReferralFacts.

(** ** Lookups that end in their first cycle *)

Section FirstCycle.

Variable udp : nat → Query → Addr → Reply.
Variable lookup_rec : Name → RdataType → State → option (Completion Message * State).
Variable cache_key : Name * RdataType.
Variable qtype : RdataType.

Lemma classify_terminal (current_target : Name) query response st returned :
  terminal qtype query response = Some returned →
  classify lookup_rec cache_key qtype current_target query response st
  = Some (Normal (Return returned), store cache_key returned st).
Proof.
  unfold terminal, classify. intros H.
  repeat case_match; simplify_eq; done.
Qed.

Lemma attempt_terminal (current_target : Name) nameservers ns st response returned :
  udp (clock st) (make_query current_target qtype) ns = Received response →
  terminal qtype (make_query current_target qtype) response = Some returned →
  attempt udp lookup_rec cache_key qtype current_target nameservers ns st
  = Some (Return returned,
          store cache_key returned
            (sent_one nameservers ns (make_query current_target qtype) st)).
Proof.
  intros Hudp Hterminal. rewrite (attempt_received _ _ _ _ _ _ _ _ _ Hudp).
  by rewrite (classify_terminal _ _ _ _ _ Hterminal).
Qed.

Lemma while_true_exhausted fuel (current_target : Name) nameservers oq st :
  nameservers ≠ [] →
  (∀ i ns, nameservers !! i = Some ns →
     ∃ e, udp (clock st + i) (make_query current_target qtype) ns = Failed e) →
  while_true udp lookup_rec cache_key qtype (S fuel) current_target nameservers oq st
  = Some (Normal (make_response (make_query current_target qtype)),
          store cache_key (make_response (make_query current_target qtype))
            (sent_all nameservers (make_query current_target qtype) nameservers
               (log (Cycle current_target nameservers) st))).
Proof.
  intros Hne Hfail. cbn [while_true].
  rewrite for_ns_all_failed by exact Hfail. by destruct nameservers.
Qed.

End FirstCycle.

Lemma lookup_answered udp fuel (target_name : Name) qtype st ns rest response returned :
  CACHE st !! (target_name, qtype) = None →
  select_nameservers (CACHE st) target_name = ns :: rest →
  udp (clock st) (target_name, qtype) ns = Received response →
  terminal qtype (target_name, qtype) response = Some returned →
  lookup udp (S (S fuel)) target_name qtype st
  = Some (Normal returned, answered (ns :: rest) ns target_name qtype returned st).
Proof.
  intros Hmiss Hselect Hudp Hterminal.
  rewrite lookup_miss by exact Hmiss. rewrite Hselect.
  apply (while_true_returns udp (lookup udp (S fuel)) (target_name, qtype) qtype fuel
           target_name [] ns rest None st None _ returned _ eq_refl).
  exact (attempt_terminal udp (lookup udp (S fuel)) (target_name, qtype) qtype
           target_name (ns :: rest) ns (log (Cycle target_name (ns :: rest)) st)
           response returned Hudp Hterminal).
Qed.

Lemma lookup_unanswered udp fuel (target_name : Name) qtype st nameservers :
  CACHE st !! (target_name, qtype) = None →
  select_nameservers (CACHE st) target_name = nameservers →
  (∀ i ns, nameservers !! i = Some ns →
     ∃ e, udp (clock st + i) (target_name, qtype) ns = Failed e) →
  lookup udp (S (S fuel)) target_name qtype st
  = Some (Normal (make_response (target_name, qtype)),
          unanswered nameservers target_name qtype st).
Proof.
  intros Hmiss Hselect Hfail.
  rewrite lookup_miss by exact Hmiss. rewrite Hselect.
  apply while_true_exhausted; [|exact Hfail].
  rewrite <- Hselect. apply select_nameservers_nonempty.
Qed.

(** ** Attempts that meet a referral *)

Section ReferralAttempts.

Variable udp : nat → Query → Addr → Reply.
Variable lookup_rec : Name → RdataType → State → option (Completion Message * State).
Variable cache_key : Name * RdataType.
Variable qtype : RdataType.

Lemma attempt_glued (current_target : Name) nameservers ns st response authority0 more
    address others :
  udp (clock st) (make_query current_target qtype) ns = Received response →
  answer response = [] →
  authority response = authority0 :: more →
  flat_map ns_targets (authority response) ≠ [] →
  Forall (λ rr, rr_rdataset rr ≠ A_rdataset []) (additional response) →
  glue_addresses (additional response) = address :: others →
  attempt udp lookup_rec cache_key qtype current_target nameservers ns st
  = Some (Break current_target (address :: others),
          referral_read (make_query current_target qtype) response (rr_name authority0)
            (sent_one nameservers ns (make_query current_target qtype) st)).
Proof.
  intros Hudp Hanswer Hauthority Hns Hhollow Hglue.
  rewrite (attempt_received _ _ _ _ _ _ _ _ _ Hudp).
  rewrite (classify_referral _ _ _ _ _ _ _ _ _ Hanswer Hauthority Hns Hhollow).
  cbn zeta. by rewrite Hglue.
Qed.

Lemma attempt_glueless (current_target : Name) nameservers ns st response authority0 more
    found st3 :
  udp (clock st) (make_query current_target qtype) ns = Received response →
  answer response = [] →
  authority response = authority0 :: more →
  flat_map ns_targets (authority response) ≠ [] →
  Forall (λ rr, rr_rdataset rr ≠ A_rdataset []) (additional response) →
  glue_addresses (additional response) = [] →
  glueless lookup_rec (flat_map ns_targets (authority response))
    (referral_read (make_query current_target qtype) response (rr_name authority0)
       (sent_one nameservers ns (make_query current_target qtype) st))
    = Some (found, st3) →
  attempt udp lookup_rec cache_key qtype current_target nameservers ns st
  = Some (match found with
          | [] => Continue
          | _ => Break current_target found
          end, st3).
Proof.
  intros Hudp Hanswer Hauthority Hns Hhollow Hglue Hglueless.
  rewrite (attempt_received _ _ _ _ _ _ _ _ _ Hudp).
  rewrite (classify_referral _ _ _ _ _ _ _ _ _ Hanswer Hauthority Hns Hhollow).
  cbn zeta. rewrite Hglue, Hglueless. by destruct found.
Qed.

(** One NS target, whose lookup gives no address. *)
Lemma glueless_one_none (ns_name : Name) st ns_response st' :
  lookup_rec ns_name rdatatype.A (log (Nested ns_name) st)
    = Some (Normal ns_response, st') →
  flat_map a_addresses (answer ns_response) = [] →
  glueless lookup_rec [ns_name] st = Some ([], st').
Proof. intros Hlookup Hnone. cbn. by rewrite Hlookup, Hnone. Qed.

(** One NS target, whose lookup gives addresses. *)
Lemma glueless_one_found (ns_name : Name) st ns_response st' :
  lookup_rec ns_name rdatatype.A (log (Nested ns_name) st)
    = Some (Normal ns_response, st') →
  flat_map a_addresses (answer ns_response) ≠ [] →
  glueless lookup_rec [ns_name] st
  = Some (flat_map a_addresses (answer ns_response), st').
Proof.
  intros Hlookup Hfound. cbn. rewrite Hlookup.
  by destruct (flat_map a_addresses (answer ns_response)).
Qed.

End ReferralAttempts.

(** * The claims *)

(** ** The delegation locator *)

Lemma flat_map_nil_existsb {X Y : Type} (f : X → list Y) (l : list X) :
  existsb (λ x, bool_decide (f x ≠ [])) l = false ↔ flat_map f l = [].
Proof.
  induction l as [|x l IH]; cbn; [done|].
  rewrite orb_false_iff, IH, bool_decide_eq_false. split.
  - intros [Hx ->]. destruct (f x); [done|]. by destruct Hx.
  - intros [-> ->]%app_eq_nil. split; [|done]. by intros [].
Qed.

Lemma usable_spec cache (parent : Name) :
  usable cache parent = true ↔ delegation_addresses cache parent ≠ [].
Proof.
  unfold usable, delegation_addresses.
  destruct (cache !! (parent, rdatatype.NS)) as [cached_response|]; [|done].
  rewrite <- flat_map_nil_existsb. destruct (existsb _ _); split; congruence.
Qed.

Lemma closest_loop_spec cache (labels : list Label) (nameservers : option (list Addr)) :
  nameservers = None ∨ nameservers = Some [] →
  match closest_loop cache labels nameservers with
  | Some (ns :: more) => ns :: more
  | _ => ROOT_SERVERS
  end
  = match find (usable cache) (ancestors labels) with
    | Some parent => delegation_addresses cache parent
    | None => ROOT_SERVERS
    end.
Proof.
  revert nameservers.
  induction labels as [|label rest IH]; intros nameservers Hacc.
  { cbn. by destruct Hacc as [-> | ->]. }
  cbn [closest_loop ancestors find].
  pose proof (usable_spec cache (label :: rest)) as Hu.
  unfold delegation_addresses in *. fold (cached_nameservers cache) in *.
  destruct (cache !! (label :: rest, rdatatype.NS)) as [cached_response|] eqn:Ec.
  - unfold cached_nameservers in *.
    destruct (flat_map (cached_addresses cache) _) as [|ns more] eqn:E.
    + destruct (usable cache (label :: rest)); [by destruct (proj1 Hu)|].
      apply IH. by right.
    + destruct (usable cache (label :: rest)); [by rewrite Ec, E|].
      discriminate (proj2 Hu); done.
  - destruct (usable cache (label :: rest)); [by destruct (proj1 Hu)|].
    by apply IH.
Qed.

Lemma select_is_closest_delegation cache (target_name : Name) :
  select_nameservers cache target_name = closest_delegation cache target_name.
Proof. apply closest_loop_spec. by left. Qed.

Example select_nameservers_skips_unusable_zone :
  ancestors Scenario.www
  = [Scenario.www; Scenario.example_com; Scenario.com; [""%string]]
  ∧ select_nameservers Scenario.partial_cache Scenario.www = ["192.5.6.30"%string]
  ∧ select_nameservers Scenario.partial_cache Scenario.ns_example_net = ROOT_SERVERS.
Proof. by vm_compute. Qed.


(** ** Following CNAME chains *)

Lemma follow_cnames_chain lookup_fn fuel (name : Name) st steps (final : Name) st' cnames :
  alias_chain lookup_fn name st steps final st' →
  length steps < fuel →
  follow_cnames lookup_fn fuel name cnames st = Some (Normal (final, cnames ++ steps), st').
Proof.
  intros Hchain. revert fuel cnames.
  induction Hchain as [name st response st' Hl Hc
                      |name st response st1 target steps final st' Hl Hc _ IH];
    intros fuel cnames Hfuel; (destruct fuel as [|fuel]; [cbn in Hfuel; lia|]);
    cbn [follow_cnames]; rewrite Hl, Hc.
  - by rewrite app_nil_r.
  - rewrite IH by (cbn in Hfuel; lia). by rewrite <- app_assoc.
Qed.

(** C9.  When the CNAME lookups starting at a name yield an alias chain,
    [collect_results] records the alias steps of the chain in order and
    issues the A, AAAA and MX lookups against the last name of the chain:
    for the chain A→B→C the steps are [(A,B); (B,C)] and the three lookups
    are made for C; when the CNAME lookup for the name itself returns no
    CNAME record the chain is empty, no step is recorded and the three
    lookups are made for the name itself.  The name is the one
    [dns.name.from_text] makes of the text given; the fuel only has to
    exceed the length of the chain. *)
Theorem collect_results_follows_chain udp from_text fuel name (target_name : Name) st
    steps (final : Name) st1 st2 st3 st4 response_a response_aaaa response_mx :
  from_text name = Normal target_name →
  alias_chain (lookup udp fuel) target_name st steps final st1 →
  length steps < fuel →
  lookup udp fuel final rdatatype.A st1 = Some (Normal response_a, st2) →
  lookup udp fuel final rdatatype.AAAA st2 = Some (Normal response_aaaa, st3) →
  lookup udp fuel final rdatatype.MX st3 = Some (Normal response_mx, st4) →
  collect_results udp from_text fuel name st
  = Some (Normal {| results_CNAME := steps;
                    results_A := arecords response_a;
                    results_AAAA := aaaarecords response_aaaa;
                    results_MX := mxrecords response_mx |}, st4).
Proof.
  intros Hname Hchain Hfuel Ha Haaaa Hmx.
  unfold collect_results, collect_from. rewrite Hname.
  rewrite (follow_cnames_chain _ _ _ _ _ _ _ [] Hchain Hfuel). cbn [app].
  unfold collect_records. by rewrite Ha, Haaaa, Hmx.
Qed.

(** ** Exhausted nameservers *)

(** C3.  In any cycle of the loop of [lookup], when the datagram sent to
    each nameserver of the current set fails (a timeout or any other
    error), the lookup ends at once: it builds the empty response to the
    last query, stores it under the original key and returns it.  Nothing
    but this write changes the cache. *)
Theorem exhaustion_fallback udp lookup_rec cache_key qtype fuel
    (current_target : Name) (nameservers : list Addr) outbound_query st :
  nameservers ≠ [] →
  (∀ i ns, nameservers !! i = Some ns →
     ∃ e, udp (clock st + i) (make_query current_target qtype) ns = Failed e) →
  let query := make_query current_target qtype in
  let response := make_response query in
  let st' := store cache_key response
               (sent_all nameservers query nameservers
                  (log (Cycle current_target nameservers) st)) in
  while_true udp lookup_rec cache_key qtype (S fuel) current_target nameservers
    outbound_query st = Some (Normal response, st')
  ∧ answer response = []
  ∧ CACHE st' = <[cache_key := response]> (CACHE st)
  ∧ CACHE st' !! cache_key = Some response.
Proof.
  intros Hne Hfail query response st'. subst st'. split; [|split; [done|split]].
  - cbn [while_true]. rewrite for_ns_all_failed by exact Hfail.
    by destruct nameservers.
  - cbn. by rewrite CACHE_sent_all.
  - cbn. apply lookup_insert_eq.
Qed.

Lemma exhaustion_fallback_witness :
  lookup Scenario.dead_net 2 Scenario.www rdatatype.A Scenario.fresh
  = Some (Normal (make_response (Scenario.www, rdatatype.A)),
          store (Scenario.www, rdatatype.A) (make_response (Scenario.www, rdatatype.A))
            (sent_all ROOT_SERVERS (Scenario.www, rdatatype.A) ROOT_SERVERS
               (log (Cycle Scenario.www ROOT_SERVERS) Scenario.fresh))).
Proof.
  rewrite lookup_miss by reflexivity.
  apply (exhaustion_fallback Scenario.dead_net
           (lookup Scenario.dead_net 1) (Scenario.www, rdatatype.A) rdatatype.A 0
           Scenario.www ROOT_SERVERS None Scenario.fresh).
  - discriminate.
  - intros i ns _. exists Timeout. reflexivity.
Defined.

(** ** Exceptions *)

(** C10.  Whatever exception the body of an attempt raises (a timeout or
    an I/O failure of the transport, any other failure of the transport, an
    exception raised while the response is classified), the attempt ends
    like [continue]: the loop goes on with the next nameserver, in the state
    the attempt left behind.  And [lookup] never ends with an exception:
    whenever it ends, it returns a response.  In particular no nested lookup
    for a glueless delegation ever raises into an attempt. *)
Theorem attempt_exceptions_contained :
  (∀ udp lookup_rec cache_key qtype (current_target : Name) nameservers ns more
     outbound_query st e st',
     attempt_body udp lookup_rec cache_key qtype current_target nameservers ns st
       = Some (Raised e, st') →
     for_ns udp lookup_rec cache_key qtype current_target nameservers (ns :: more)
       outbound_query st
     = for_ns udp lookup_rec cache_key qtype current_target nameservers more
         (Some (make_query current_target qtype)) st')
  ∧ (∀ udp lookup_rec cache_key qtype (current_target : Name) nameservers ns more
       outbound_query st e,
       udp (clock st) (make_query current_target qtype) ns = Failed e →
       for_ns udp lookup_rec cache_key qtype current_target nameservers (ns :: more)
         outbound_query st
       = for_ns udp lookup_rec cache_key qtype current_target nameservers more
           (Some (make_query current_target qtype))
           (sent_one nameservers ns (make_query current_target qtype) st))
  ∧ (∀ udp fuel (target_name : Name) qtype st c st',
       lookup udp fuel target_name qtype st = Some (c, st') →
       ∃ response, c = Normal response).
Proof.
  split; [|split].
  - intros * H. cbn [for_ns]. unfold attempt. by rewrite H.
  - intros * H. cbn [for_ns]. by rewrite (attempt_failed _ _ _ _ _ _ _ _ _ H).
  - intros *. apply lookup_normal.
Qed.

Lemma attempt_exceptions_contained_witness :
  let key := (Scenario.www, rdatatype.A) in
  let run := for_ns Scenario.flaky_net (lookup Scenario.flaky_net 1) key rdatatype.A
               Scenario.www ROOT_SERVERS in
  let st0 := log (Cycle Scenario.www ROOT_SERVERS) Scenario.fresh in
  let st1 := sent_one ROOT_SERVERS "198.41.0.4" key st0 in
  let st2 := sent_one ROOT_SERVERS "199.9.14.201" key st1 in
  run ROOT_SERVERS None st0 = run (tail ROOT_SERVERS) (Some key) st1
  ∧ run (tail ROOT_SERVERS) (Some key) st1 = run (tail (tail ROOT_SERVERS)) (Some key) st2
  ∧ ∃ response, Normal Scenario.www_answer = Normal response.
Proof.
  destruct attempt_exceptions_contained as (Hbody & Hudp & Hlookup).
  split; [|split].
  - apply (Hudp _ _ _ _ _ _ _ _ _ _ BadResponse). reflexivity.
  - apply (Hbody _ _ _ _ _ _ _ _ _ _ IndexError). reflexivity.
  - apply (Hlookup Scenario.flaky_net 2 Scenario.www rdatatype.A Scenario.fresh
             (Normal Scenario.www_answer)
             (store (Scenario.www, rdatatype.A) Scenario.www_answer
                (sent_all ROOT_SERVERS (Scenario.www, rdatatype.A)
                   (take 4 ROOT_SERVERS)
                   (log (Cycle Scenario.www ROOT_SERVERS) Scenario.fresh)))).
    reflexivity.
Defined.

(** ** Responses without an answer and without a referral *)




(** ** Queries of type CNAME *)



(** ** Aliases met on the way *)

(** C4.  In any cycle of a lookup of a type other than CNAME, when the
    nameservers before [ns] were tried without result and the answer section
    of the response of [ns] holds a CNAME RRset, the first of them with
    first target [alias_target]: the loop starts its next cycle with
    [alias_target] as the current target and the Root Hints as the
    nameserver set, and the cache is left as it was.  Whatever response the
    lookup finally returns is the value then cached under the original key.
    In particular, when the first root server answers the query for
    [alias_target] with records and no CNAME, that answer is returned and
    stored under the original key, and no other key of the cache changes. *)
Theorem implicit_alias_restart udp lookup_rec cache_key qtype fuel
    (current_target : Name) tried ns rest outbound_query st outbound_query1 st1
    response cname (alias_target : Name) others :
  let nameservers := tried ++ ns :: rest in
  let query := make_query current_target qtype in
  let st2 := sent_one nameservers ns query st1 in
  qtype ≠ rdatatype.CNAME →
  for_ns udp lookup_rec cache_key qtype current_target nameservers tried outbound_query
    (log (Cycle current_target nameservers) st) = Some (Continue, outbound_query1, st1) →
  udp (clock st1) query ns = Received response →
  find is_cname (answer response) = Some cname →
  cname_targets cname = alias_target :: others →
  while_true udp lookup_rec cache_key qtype (S fuel) current_target nameservers
    outbound_query st
  = while_true udp lookup_rec cache_key qtype fuel alias_target ROOT_SERVERS
      (Some query) st2
  ∧ CACHE st2 = CACHE st1
  ∧ (∀ final st',
       while_true udp lookup_rec cache_key qtype (S fuel) current_target nameservers
         outbound_query st = Some (Normal final, st') →
       CACHE st' !! cache_key = Some final)
  ∧ (∀ final,
       udp (clock st2) (make_query alias_target qtype) "198.41.0.4"%string
         = Received final →
       answer final ≠ [] →
       find is_cname (answer final) = None →
       ∃ st',
         while_true udp lookup_rec cache_key qtype (S (S fuel)) current_target nameservers
           outbound_query st = Some (Normal final, st')
         ∧ CACHE st' = <[cache_key := final]> (CACHE st1)
         ∧ ∀ other, other ≠ cache_key → CACHE st' !! other = CACHE st1 !! other).
Proof.
  intros nameservers query st2 Hqtype Htried Hudp Hfind Htarget.
  assert (attempt udp lookup_rec cache_key qtype current_target nameservers ns st1
          = Some (Break alias_target ROOT_SERVERS, st2)) as Hattempt.
  { rewrite (attempt_received _ _ _ _ _ _ _ _ _ Hudp). unfold classify.
    destruct (answer response) as [|answer0 more] eqn:E; [done|].
    rewrite bool_decide_eq_false_2 by done. by rewrite Hfind, Htarget. }
  split; [|split; [done|split]].
  - by apply (while_true_breaks _ _ _ _ _ _ _ _ _ _ _ _ _ _ _ _ Htried).
  - intros final st'. apply while_true_cached.
  - intros final Hfinal Hanswer Hnone.
    eexists. split; [|split].
    + rewrite (while_true_breaks _ _ _ _ _ _ _ _ _ _ _ _ _ _ _ _ Htried Hattempt).
      apply (while_true_returns udp lookup_rec cache_key qtype fuel alias_target
               [] "198.41.0.4"%string (tail ROOT_SERVERS) (Some query) st2
               (Some query) (log (Cycle alias_target ROOT_SERVERS) st2) final _ eq_refl).
      refine (eq_trans (attempt_received udp lookup_rec cache_key qtype alias_target
                          ROOT_SERVERS "198.41.0.4"%string
                          (log (Cycle alias_target ROOT_SERVERS) st2) final Hfinal) _).
      unfold classify.
      destruct (answer final) as [|answer0 more] eqn:E; [done|].
      rewrite bool_decide_eq_false_2 by done. by rewrite Hnone.
    + reflexivity.
    + intros other Hother. cbn. by rewrite lookup_insert_ne.
Qed.

Lemma implicit_alias_restart_witness :
  ∃ st',
    lookup Scenario.alias_net 3 Scenario.www rdatatype.A Scenario.fresh
      = Some (Normal Scenario.example_com_answer, st')
    ∧ CACHE st'
      = <[(Scenario.www, rdatatype.A) := Scenario.example_com_answer]>
          (CACHE Scenario.fresh)
    ∧ ∀ other, other ≠ (Scenario.www, rdatatype.A) →
        CACHE st' !! other = CACHE Scenario.fresh !! other.
Proof.
  rewrite lookup_miss by reflexivity.
  apply (implicit_alias_restart Scenario.alias_net (lookup Scenario.alias_net 2)
           (Scenario.www, rdatatype.A) rdatatype.A 0 Scenario.www
           [] "198.41.0.4"%string (tail ROOT_SERVERS) None Scenario.fresh
           None (log (Cycle Scenario.www ROOT_SERVERS) Scenario.fresh)
           Scenario.www_alias (mkRRset Scenario.www (CNAME_rdataset [Scenario.example_com]))
           Scenario.example_com []).
  - discriminate.
  - reflexivity.
  - reflexivity.
  - reflexivity.
  - reflexivity.
  - reflexivity.
  - discriminate.
  - reflexivity.
Defined.

Lemma collect_results_follows_chain_witness :
  ∃ st',
    collect_results Scenario.chain_net Scenario.from_text 4 "alpha" Scenario.fresh
    = Some (Normal {| results_CNAME := [mkCnameResult Scenario.beta Scenario.alpha;
                                        mkCnameResult Scenario.gamma Scenario.beta];
                      results_A := [mkAddressResult Scenario.gamma "192.0.2.7"];
                      results_AAAA := [];
                      results_MX := [mkMxResult Scenario.gamma 10 Scenario.mail] |}, st').
Proof.
  eexists. eapply eq_trans.
  - eapply (collect_results_follows_chain Scenario.chain_net Scenario.from_text 4
              "alpha" Scenario.alpha Scenario.fresh
              [mkCnameResult Scenario.beta Scenario.alpha;
               mkCnameResult Scenario.gamma Scenario.beta] Scenario.gamma).
    + run.
    + eapply alias_chain_step;
        [eapply (lookup_answered Scenario.chain_net 2 Scenario.alpha); run | run |].
      eapply alias_chain_step;
        [eapply (lookup_answered Scenario.chain_net 2 Scenario.beta); run | run |].
      eapply alias_chain_end;
        [eapply (lookup_answered Scenario.chain_net 2 Scenario.gamma); run | run].
    + cbn. lia.
    + eapply (lookup_answered Scenario.chain_net 2 Scenario.gamma); run.
    + eapply (lookup_answered Scenario.chain_net 2 Scenario.gamma); run.
    + eapply (lookup_answered Scenario.chain_net 2 Scenario.gamma); run.
  - reflexivity.
Defined.

(** ** Referrals: glue first, nested lookups otherwise *)

(** What the engine does with a referral.  In any cycle, when the
    nameservers before [ns] were tried without result and the response of
    [ns] is a referral (no answer, NS records in the authority section,
    every A RRset of the additional section holding a record):
    - if the A RRsets of the additional section give at least one address,
      the first address of each is the nameserver set of the next cycle
      (line 212 reads [additional[0]] only), and between the datagram to
      [ns] and that cycle nothing is sent and no nested lookup is made;
    - if they give none, the NS targets are looked up in order (type A, by
      the engine itself); as soon as the targets [skipped] gave no address
      and the lookup of [ns_name] returns addresses, these are the
      nameserver set of the next cycle, which starts in the state that
      lookup left: the targets after [ns_name] are not looked up. *)
Theorem referral_glue_preference udp lookup_rec cache_key qtype fuel
    (current_target : Name) tried ns rest outbound_query st outbound_query1 st1
    response authority0 authority_more :
  let nameservers := tried ++ ns :: rest in
  let query := make_query current_target qtype in
  let ns_names := flat_map ns_targets (authority response) in
  let st2 := referral_read query response (rr_name authority0)
               (sent_one nameservers ns query st1) in
  for_ns udp lookup_rec cache_key qtype current_target nameservers tried outbound_query
    (log (Cycle current_target nameservers) st) = Some (Continue, outbound_query1, st1) →
  udp (clock st1) query ns = Received response →
  answer response = [] →
  authority response = authority0 :: authority_more →
  ns_names ≠ [] →
  Forall (λ rr, rr_rdataset rr ≠ A_rdataset []) (additional response) →
  (glue_addresses (additional response) ≠ [] →
   while_true udp lookup_rec cache_key qtype (S fuel) current_target nameservers
     outbound_query st
   = while_true udp lookup_rec cache_key qtype fuel current_target
       (glue_addresses (additional response)) (Some query) st2
   ∧ trace st2 = trace st1 ++ [Sent nameservers ns query]
   ∧ clock st2 = S (clock st1))
  ∧ (glue_addresses (additional response) = [] →
     ∀ skipped (ns_name : Name) later st3 ns_response st4,
       ns_names = skipped ++ ns_name :: later →
       glueless lookup_rec skipped st2 = Some ([], st3) →
       lookup_rec ns_name rdatatype.A (log (Nested ns_name) st3)
         = Some (Normal ns_response, st4) →
       flat_map a_addresses (answer ns_response) ≠ [] →
       while_true udp lookup_rec cache_key qtype (S fuel) current_target nameservers
         outbound_query st
       = while_true udp lookup_rec cache_key qtype fuel current_target
           (flat_map a_addresses (answer ns_response)) (Some query) st4).
Proof.
  intros nameservers query ns_names st2 Htried Hudp Hanswer Hauthority Hns Hhollow.
  pose proof (attempt_received udp lookup_rec cache_key qtype current_target
                nameservers ns st1 response Hudp) as Hattempt.
  rewrite (classify_referral _ _ _ _ _ _ _ _ _ Hanswer Hauthority Hns Hhollow)
    in Hattempt.
  cbn zeta in Hattempt. fold query st2 ns_names in Hattempt.
  split.
  - intros Hglue.
    destruct (glue_addresses (additional response)) as [|a others] eqn:E; [done|].
    split; [|split].
    + by apply (while_true_breaks _ _ _ _ _ _ _ _ _ _ _ _ _ _ _ _ Htried).
    + unfold st2. by rewrite referral_read_trace.
    + unfold st2. by rewrite referral_read_clock.
  - intros Hglue skipped ns_name later st3 ns_response st4 Hsplit Hskipped Hlookup Hfound.
    rewrite Hglue, Hsplit in Hattempt.
    rewrite (glueless_stops _ _ _ _ _ _ _ _ Hskipped Hlookup Hfound) in Hattempt.
    apply (while_true_breaks _ _ _ _ _ _ _ _ _ _ _ _ _ _ _ _ Htried).
    by destruct (flat_map a_addresses (answer ns_response)).
Qed.

Lemma referral_glue_preference_witness :
  let key := (Scenario.www, rdatatype.A) in
  let net := Scenario.delegating_net in
  let st2 := referral_read key Scenario.com_referral Scenario.com
               (sent_one ROOT_SERVERS "198.41.0.4" key
                  (log (Cycle Scenario.www ROOT_SERVERS) Scenario.fresh)) in
  let st3 := referral_read key Scenario.example_referral Scenario.example_com
               (sent_one ["192.5.6.30"%string] "192.5.6.30" key
                  (log (Cycle Scenario.www ["192.5.6.30"%string]) Scenario.fresh)) in
  let st4 := answered ROOT_SERVERS "198.41.0.4" Scenario.ns_example_net rdatatype.A
               Scenario.ns_example_net_answer
               (log (Nested Scenario.ns_example_net) st3) in
  (while_true net (lookup net 3) key rdatatype.A 4 Scenario.www ROOT_SERVERS None
     Scenario.fresh
   = while_true net (lookup net 3) key rdatatype.A 3 Scenario.www ["192.5.6.30"%string]
       (Some key) st2
   ∧ trace st2 = [Cycle Scenario.www ROOT_SERVERS; Sent ROOT_SERVERS "198.41.0.4" key]
   ∧ clock st2 = 1)
  ∧ while_true net (lookup net 3) key rdatatype.A 4 Scenario.www ["192.5.6.30"%string]
      None Scenario.fresh
    = while_true net (lookup net 3) key rdatatype.A 3 Scenario.www ["198.51.100.1"%string]
        (Some key) st4.
Proof.
  intros key net st2 st3 st4.
  assert (flat_map ns_targets (authority Scenario.com_referral) ≠ []) as Hns1
    by discriminate.
  assert (Forall (λ rr, rr_rdataset rr ≠ A_rdataset [])
            (additional Scenario.com_referral)) as Hhollow1
    by (repeat constructor; discriminate).
  assert (flat_map ns_targets (authority Scenario.example_referral) ≠ []) as Hns2
    by discriminate.
  destruct (referral_glue_preference net (lookup net 3) key rdatatype.A 3 Scenario.www
              [] "198.41.0.4"%string (tail ROOT_SERVERS) None Scenario.fresh
              None (log (Cycle Scenario.www ROOT_SERVERS) Scenario.fresh)
              Scenario.com_referral (mkRRset Scenario.com (NS_rdataset [Scenario.gtld])) []
              eq_refl eq_refl eq_refl eq_refl Hns1 Hhollow1) as [Hglue _].
  destruct (referral_glue_preference net (lookup net 3) key rdatatype.A 3 Scenario.www
              [] "192.5.6.30"%string [] None Scenario.fresh
              None (log (Cycle Scenario.www ["192.5.6.30"%string]) Scenario.fresh)
              Scenario.example_referral
              (mkRRset Scenario.example_com (NS_rdataset [Scenario.ns_example_net])) []
              eq_refl eq_refl eq_refl eq_refl Hns2 (Forall_nil_2 _)) as [_ Hglueless].
  split.
  - apply Hglue. discriminate.
  - apply (Hglueless eq_refl [] Scenario.ns_example_net [] st3
             Scenario.ns_example_net_answer st4 eq_refl eq_refl).
    + apply (lookup_answered net 1 Scenario.ns_example_net rdatatype.A
               (log (Nested Scenario.ns_example_net) st3)
               "198.41.0.4"%string (tail ROOT_SERVERS)
               Scenario.ns_example_net_answer); run.
    + discriminate.
Defined.

(** The lookup of [www] on [twin_net], step by step. *)

Example twin_first_nameserver :
  attempt Scenario.twin_net (lookup Scenario.twin_net 2) (Scenario.www, rdatatype.A)
    rdatatype.A Scenario.www ROOT_SERVERS "198.41.0.4"
    (log (Cycle Scenario.www ROOT_SERVERS) Scenario.fresh)
  = Some (Break Scenario.www ["10.0.0.1"%string], Scenario.twin_referred).
Proof.
  apply (attempt_glued Scenario.twin_net (lookup Scenario.twin_net 2)
           (Scenario.www, rdatatype.A) rdatatype.A Scenario.www ROOT_SERVERS "198.41.0.4"
           (log (Cycle Scenario.www ROOT_SERVERS) Scenario.fresh)
           Scenario.twin_referral
           (mkRRset Scenario.example_com (NS_rdataset [Scenario.ns1])) []
           "10.0.0.1"%string []);
    [run | reflexivity | reflexivity | discriminate
    | repeat constructor; discriminate | reflexivity].
Qed.

Example twin_second_cycle :
  while_true Scenario.twin_net (lookup Scenario.twin_net 2) (Scenario.www, rdatatype.A)
    rdatatype.A 1 Scenario.www ["10.0.0.1"%string] (Some (Scenario.www, rdatatype.A))
    Scenario.twin_referred
  = Some (Normal (make_response (Scenario.www, rdatatype.A)), Scenario.twin_end).
Proof.
  apply (while_true_exhausted Scenario.twin_net (lookup Scenario.twin_net 2)
           (Scenario.www, rdatatype.A) rdatatype.A 0 Scenario.www ["10.0.0.1"%string]
           (Some (Scenario.www, rdatatype.A)) Scenario.twin_referred); [discriminate|].
  intros [|i] ns; [|done]. intros [= <-]. by exists Timeout.
Qed.

(** C5 fails on the code.  The glue of a referral is read with
    [additional[0].address] (line 212): of an A RRset with several
    addresses only the first one enters the next nameserver set, although
    the whole RRset is cached and the two sibling paths (the delegation
    locator, lines 139-142, and the nested lookups, lines 223-226) take
    every address of an RRset.  On [twin_net] the referral of the first
    root server supplies the glue addresses 10.0.0.1 and 10.0.0.2 for the
    nameserver [ns1]; the next cycle runs on 10.0.0.1 alone, which is
    silent, and the lookup returns the empty response without a datagram to
    10.0.0.2, which would have answered.  In the cache the lookup leaves,
    the delegation locator finds both addresses for the same name. *)
Theorem glue_later_addresses_dropped :
  let key := (Scenario.www, rdatatype.A) in
  let net := Scenario.twin_net in
  flat_map a_addresses (additional Scenario.twin_referral)
    = ["10.0.0.1"; "10.0.0.2"]%string
  ∧ attempt net (lookup net 2) key rdatatype.A Scenario.www ROOT_SERVERS "198.41.0.4"
      (log (Cycle Scenario.www ROOT_SERVERS) Scenario.fresh)
    = Some (Break Scenario.www ["10.0.0.1"%string], Scenario.twin_referred)
  ∧ (∀ t, net t key "10.0.0.2"%string = Received Scenario.www_answer)
  ∧ lookup net 3 Scenario.www rdatatype.A Scenario.fresh
    = Some (Normal (make_response key), Scenario.twin_end)
  ∧ trace Scenario.twin_end
    = [Cycle Scenario.www ROOT_SERVERS; Sent ROOT_SERVERS "198.41.0.4" key;
       Cycle Scenario.www ["10.0.0.1"%string];
       Sent ["10.0.0.1"%string] "10.0.0.1" key]
  ∧ select_nameservers (CACHE Scenario.twin_end) Scenario.www
    = ["10.0.0.1"; "10.0.0.2"]%string.
Proof.
  intros key net.
  split; [reflexivity|]. split; [exact twin_first_nameserver|].
  split; [reflexivity|]. split; [|split; run].
  rewrite lookup_miss by run.
  replace (select_nameservers (CACHE Scenario.fresh) Scenario.www)
    with ROOT_SERVERS by run.
  refine (eq_trans
            (while_true_breaks net (lookup net 2) key rdatatype.A 1 Scenario.www
               [] "198.41.0.4"%string (tail ROOT_SERVERS) None Scenario.fresh
               None _ Scenario.www ["10.0.0.1"%string] Scenario.twin_referred
               eq_refl twin_first_nameserver) _).
  exact twin_second_cycle.
Qed.

(** ** The nameserver set is never empty *)

(** The lookup of [www] on [lame_net], step by step. *)

Example lame_first_cycle :
  attempt Scenario.lame_net (lookup Scenario.lame_net 2) (Scenario.www, rdatatype.A)
    rdatatype.A Scenario.www ROOT_SERVERS "198.41.0.4"
    (log (Cycle Scenario.www ROOT_SERVERS) Scenario.fresh)
  = Some (Break Scenario.www Scenario.lame_set, Scenario.lame_second_cycle).
Proof.
  apply (attempt_glued Scenario.lame_net (lookup Scenario.lame_net 2)
           (Scenario.www, rdatatype.A) rdatatype.A Scenario.www ROOT_SERVERS "198.41.0.4"
           (log (Cycle Scenario.www ROOT_SERVERS) Scenario.fresh)
           Scenario.glued_referral
           (mkRRset Scenario.example_com (NS_rdataset [Scenario.ns1; Scenario.ns2])) []
           "10.0.0.1"%string ["10.0.0.2"%string]);
    [run | reflexivity | reflexivity | discriminate | | reflexivity].
  repeat constructor; discriminate.
Qed.

Example lame_nested_lookup :
  lookup Scenario.lame_net 2 Scenario.ns_example_net rdatatype.A
    (log (Nested Scenario.ns_example_net) Scenario.lame_referred)
  = Some (Normal (make_response (Scenario.ns_example_net, rdatatype.A)),
          Scenario.lame_unresolved).
Proof.
  apply (lookup_unanswered Scenario.lame_net 0 Scenario.ns_example_net rdatatype.A
           (log (Nested Scenario.ns_example_net) Scenario.lame_referred) ROOT_SERVERS).
  - run.
  - run.
  - intros i ns _. exists Timeout. reflexivity.
Qed.

Example lame_glueless :
  glueless (lookup Scenario.lame_net 2)
    (flat_map ns_targets (authority Scenario.example_referral)) Scenario.lame_referred
  = Some ([], Scenario.lame_unresolved).
Proof. exact (glueless_one_none _ _ _ _ _ lame_nested_lookup eq_refl). Qed.

Example lame_first_nameserver :
  attempt Scenario.lame_net (lookup Scenario.lame_net 2) (Scenario.www, rdatatype.A)
    rdatatype.A Scenario.www Scenario.lame_set "10.0.0.1"
    (log (Cycle Scenario.www Scenario.lame_set) Scenario.lame_second_cycle)
  = Some (Continue, Scenario.lame_unresolved).
Proof.
  apply (attempt_glueless Scenario.lame_net (lookup Scenario.lame_net 2)
           (Scenario.www, rdatatype.A) rdatatype.A Scenario.www Scenario.lame_set
           "10.0.0.1"
           (log (Cycle Scenario.www Scenario.lame_set) Scenario.lame_second_cycle)
           Scenario.example_referral
           (mkRRset Scenario.example_com (NS_rdataset [Scenario.ns_example_net])) []
           [] Scenario.lame_unresolved);
    [run | reflexivity | reflexivity | discriminate | constructor | reflexivity
    | exact lame_glueless].
Qed.

Example lame_second_nameserver :
  attempt Scenario.lame_net (lookup Scenario.lame_net 2) (Scenario.www, rdatatype.A)
    rdatatype.A Scenario.www Scenario.lame_set "10.0.0.2" Scenario.lame_unresolved
  = Some (Return Scenario.www_answer, Scenario.lame_end).
Proof.
  apply (attempt_terminal Scenario.lame_net (lookup Scenario.lame_net 2)
           (Scenario.www, rdatatype.A) rdatatype.A Scenario.www Scenario.lame_set
           "10.0.0.2" Scenario.lame_unresolved Scenario.www_answer Scenario.www_answer);
    run.
Qed.

Example lame_second_cycle_run :
  while_true Scenario.lame_net (lookup Scenario.lame_net 2) (Scenario.www, rdatatype.A)
    rdatatype.A 1 Scenario.www Scenario.lame_set (Some (Scenario.www, rdatatype.A))
    Scenario.lame_second_cycle
  = Some (Normal Scenario.www_answer, Scenario.lame_end).
Proof.
  apply (while_true_returns Scenario.lame_net (lookup Scenario.lame_net 2)
           (Scenario.www, rdatatype.A) rdatatype.A 0 Scenario.www
           ["10.0.0.1"%string] "10.0.0.2"%string []
           (Some (Scenario.www, rdatatype.A)) Scenario.lame_second_cycle
           (Some (Scenario.www, rdatatype.A)) Scenario.lame_unresolved
           Scenario.www_answer Scenario.lame_end).
  - exact (for_ns_continues Scenario.lame_net (lookup Scenario.lame_net 2)
             (Scenario.www, rdatatype.A) rdatatype.A Scenario.www Scenario.lame_set
             [] "10.0.0.1"%string (Some (Scenario.www, rdatatype.A))
             (log (Cycle Scenario.www Scenario.lame_set) Scenario.lame_second_cycle)
             _ _ _ eq_refl lame_first_nameserver).
  - exact lame_second_nameserver.
Qed.

(** From a fresh process the lookup reaches that second cycle and returns
    the answer of the second glued nameserver. *)
Example lame_lookup :
  lookup Scenario.lame_net 3 Scenario.www rdatatype.A Scenario.fresh
  = Some (Normal Scenario.www_answer, Scenario.lame_end).
Proof.
  rewrite lookup_miss by run.
  replace (select_nameservers (CACHE Scenario.fresh) Scenario.www)
    with ROOT_SERVERS by run.
  refine (eq_trans
            (while_true_breaks Scenario.lame_net (lookup Scenario.lame_net 2)
               (Scenario.www, rdatatype.A) rdatatype.A 1 Scenario.www
               [] "198.41.0.4"%string (tail ROOT_SERVERS) None Scenario.fresh
               None _ Scenario.www Scenario.lame_set Scenario.lame_second_cycle
               eq_refl lame_first_cycle) _).
  exact lame_second_cycle_run.
Qed.

(** C7, as stated, fails: on [lame_net] the first glued nameserver sends a
    glueless referral whose NS target has no address; the engine neither
    goes back to the Root Hints nor ends with the empty response, it asks
    the second nameserver of the same set and returns its answer. *)
Lemma no_candidates_as_stated_fails : ¬ no_candidates_as_stated.
Proof.
  intros H.
  assert (flat_map ns_targets (authority Scenario.example_referral) ≠ []) as Hns
    by discriminate.
  destruct (H Scenario.lame_net (lookup Scenario.lame_net 2)
              (Scenario.www, rdatatype.A) rdatatype.A 0 Scenario.www
              [] "10.0.0.1"%string ["10.0.0.2"%string]
              (Some (Scenario.www, rdatatype.A)) Scenario.lame_second_cycle
              (Some (Scenario.www, rdatatype.A))
              (log (Cycle Scenario.www Scenario.lame_set) Scenario.lame_second_cycle)
              Scenario.example_referral
              (mkRRset Scenario.example_com (NS_rdataset [Scenario.ns_example_net])) []
              Scenario.lame_unresolved (Normal Scenario.www_answer) Scenario.lame_end
              eq_refl eq_refl eq_refl eq_refl Hns (Forall_nil_2 _) eq_refl
              lame_glueless lame_second_cycle_run)
    as [Hc | Hroot].
  - discriminate Hc.
  - specialize (Hroot Scenario.lame_set "10.0.0.2"%string (Scenario.www, rdatatype.A)).
    change (trace Scenario.lame_end)
      with (trace Scenario.lame_unresolved
            ++ [Sent Scenario.lame_set "10.0.0.2" (Scenario.www, rdatatype.A)])
      in Hroot.
    rewrite drop_app_length in Hroot.
    discriminate Hroot. apply list_elem_of_singleton. reflexivity.
Qed.

(** C7, amended.  Every cycle of a lookup runs on a non-empty nameserver
    set and every datagram is sent to a member of a non-empty set.  The
    set a lookup starts with is never empty, and it is the Root Hints when
    no ancestor of the name gives a cached address.  A cycle hands over to
    the next one with a non-empty set only.  When a referral comes without
    glue (no A RRset in its additional section) and the lookups of its NS
    targets give no address, the current set is kept: the loop goes on with
    the nameserver after the one that sent the referral. *)
Theorem nameserver_set_never_empty :
  (∀ udp fuel (target_name : Name) qtype st c st',
     lookup udp fuel target_name qtype st = Some (c, st') →
     extends served st st')
  ∧ (∀ cache (target_name : Name),
       select_nameservers cache target_name ≠ []
       ∧ (find (usable cache) (ancestors target_name) = None →
          select_nameservers cache target_name = ROOT_SERVERS))
  ∧ (∀ udp lookup_rec cache_key qtype (current_target : Name) nameservers remaining
       outbound_query st (target' : Name) nameservers' outbound_query' st',
       for_ns udp lookup_rec cache_key qtype current_target nameservers remaining
         outbound_query st = Some (Break target' nameservers', outbound_query', st') →
       nameservers' ≠ [])
  ∧ (∀ udp lookup_rec cache_key qtype (current_target : Name) tried ns rest
       outbound_query st outbound_query1 st1 response authority0 authority_more st3,
       let nameservers := tried ++ ns :: rest in
       let query := make_query current_target qtype in
       let st2 := referral_read query response (rr_name authority0)
                    (sent_one nameservers ns query st1) in
       for_ns udp lookup_rec cache_key qtype current_target nameservers tried
         outbound_query (log (Cycle current_target nameservers) st)
         = Some (Continue, outbound_query1, st1) →
       udp (clock st1) query ns = Received response →
       answer response = [] →
       authority response = authority0 :: authority_more →
       flat_map ns_targets (authority response) ≠ [] →
       Forall (λ rr, rr_rdataset rr ≠ A_rdataset []) (additional response) →
       glue_addresses (additional response) = [] →
       glueless lookup_rec (flat_map ns_targets (authority response)) st2
         = Some ([], st3) →
       for_ns udp lookup_rec cache_key qtype current_target nameservers nameservers
         outbound_query (log (Cycle current_target nameservers) st)
       = for_ns udp lookup_rec cache_key qtype current_target nameservers rest
           (Some query) st3).
Proof.
  split; [|split; [|split]].
  - intros *. apply lookup_served.
  - intros cache target_name. split; [apply select_nameservers_nonempty|].
    intros Hnone. rewrite select_is_closest_delegation.
    unfold closest_delegation. by rewrite Hnone.
  - intros *. apply for_ns_break_nonempty.
  - intros * Htried Hudp Hanswer Hauthority Hns Hhollow Hglue Hglueless.
    subst st2 query nameservers.
    apply (for_ns_moves_on _ _ _ _ _ _ _ _ _ _ _ _ _ Htried).
    exact (attempt_glueless _ _ _ _ _ _ _ _ _ _ _ _ _
             Hudp Hanswer Hauthority Hns Hhollow Hglue Hglueless).
Qed.

Lemma nameserver_set_never_empty_witness :
  let key := (Scenario.www, rdatatype.A) in
  let net := Scenario.lame_net in
  let run_for := for_ns net (lookup net 2) key rdatatype.A Scenario.www in
  extends served Scenario.fresh Scenario.lame_end
  ∧ select_nameservers ∅ Scenario.www = ROOT_SERVERS
  ∧ Scenario.lame_set ≠ []
  ∧ run_for Scenario.lame_set Scenario.lame_set (Some key)
      (log (Cycle Scenario.www Scenario.lame_set) Scenario.lame_second_cycle)
    = run_for Scenario.lame_set ["10.0.0.2"%string] (Some key) Scenario.lame_unresolved.
Proof.
  intros key net run_for.
  destruct nameserver_set_never_empty as (Hserved & Hselect & Hbreak & Hkeep).
  assert (flat_map ns_targets (authority Scenario.example_referral) ≠ []) as Hns
    by discriminate.
  split; [|split; [|split]].
  - exact (Hserved net 3 Scenario.www rdatatype.A Scenario.fresh
             (Normal Scenario.www_answer) Scenario.lame_end lame_lookup).
  - apply Hselect. reflexivity.
  - refine (Hbreak net (lookup net 2) key rdatatype.A Scenario.www ROOT_SERVERS
              ["198.41.0.4"%string] None
              (log (Cycle Scenario.www ROOT_SERVERS) Scenario.fresh)
              Scenario.www Scenario.lame_set (Some key) Scenario.lame_second_cycle _).
    exact (for_ns_stops net (lookup net 2) key rdatatype.A Scenario.www ROOT_SERVERS
             [] "198.41.0.4"%string [] None
             (log (Cycle Scenario.www ROOT_SERVERS) Scenario.fresh) _ _ _ _
             eq_refl lame_first_cycle ltac:(discriminate)).
  - exact (Hkeep net (lookup net 2) key rdatatype.A Scenario.www
             [] "10.0.0.1"%string ["10.0.0.2"%string]
             (Some key) Scenario.lame_second_cycle (Some key)
             (log (Cycle Scenario.www Scenario.lame_set) Scenario.lame_second_cycle)
             Scenario.example_referral
             (mkRRset Scenario.example_com (NS_rdataset [Scenario.ns_example_net])) []
             Scenario.lame_unresolved
             eq_refl eq_refl eq_refl eq_refl Hns (Forall_nil_2 _) eq_refl lame_glueless).
Defined.

(** ** First writer wins *)

(** A lookup of a cached key is served from the cache: nothing is sent and
    the state does not change. *)
Lemma cached_lookup_served udp fuel (target_name : Name) qtype st cached :
  CACHE st !! (target_name, qtype) = Some cached →
  lookup udp (S fuel) target_name qtype st = Some (Normal cached, st).
Proof. apply lookup_hit. Qed.

(** The guarded writes (lines 205-208 and 214-217) keep what is cached. *)
Lemma store_if_absent_keeps key response st cached :
  CACHE st !! key = Some cached →
  store_if_absent key response st = st.
Proof. intros H. unfold store_if_absent. by rewrite H. Qed.

(** The lookup of [example_com] on [reentrant_net], step by step. *)

Example apex_nested_lookup :
  lookup Scenario.reentrant_net 2 Scenario.example_com rdatatype.A
    (log (Nested Scenario.example_com) Scenario.apex_referred)
  = Some (Normal (make_response (Scenario.example_com, rdatatype.A)),
          Scenario.apex_unresolved).
Proof.
  apply (lookup_unanswered Scenario.reentrant_net 0 Scenario.example_com rdatatype.A
           (log (Nested Scenario.example_com) Scenario.apex_referred) ROOT_SERVERS).
  - run.
  - run.
  - intros i ns Hi. exists Timeout.
    apply lookup_lt_Some in Hi. change (length ROOT_SERVERS) with 13 in Hi.
    change (clock (log (Nested Scenario.example_com) Scenario.apex_referred)) with 1.
    unfold Scenario.reentrant_net.
    rewrite decide_False by lia. by rewrite decide_True by lia.
Qed.

Example apex_first_nameserver :
  attempt Scenario.reentrant_net (lookup Scenario.reentrant_net 2)
    (Scenario.example_com, rdatatype.A) rdatatype.A Scenario.example_com ROOT_SERVERS
    "198.41.0.4" (log (Cycle Scenario.example_com ROOT_SERVERS) Scenario.fresh)
  = Some (Continue, Scenario.apex_unresolved).
Proof.
  apply (attempt_glueless Scenario.reentrant_net (lookup Scenario.reentrant_net 2)
           (Scenario.example_com, rdatatype.A) rdatatype.A Scenario.example_com
           ROOT_SERVERS "198.41.0.4"
           (log (Cycle Scenario.example_com ROOT_SERVERS) Scenario.fresh)
           Scenario.apex_referral
           (mkRRset Scenario.example_com (NS_rdataset [Scenario.example_com])) []
           [] Scenario.apex_unresolved);
    [run | reflexivity | reflexivity | discriminate | constructor | reflexivity |].
  exact (glueless_one_none _ _ _ _ _ apex_nested_lookup eq_refl).
Qed.

Example apex_second_nameserver :
  attempt Scenario.reentrant_net (lookup Scenario.reentrant_net 2)
    (Scenario.example_com, rdatatype.A) rdatatype.A Scenario.example_com ROOT_SERVERS
    "199.9.14.201" Scenario.apex_unresolved
  = Some (Return Scenario.example_com_answer, Scenario.apex_end).
Proof.
  apply (attempt_terminal Scenario.reentrant_net (lookup Scenario.reentrant_net 2)
           (Scenario.example_com, rdatatype.A) rdatatype.A Scenario.example_com
           ROOT_SERVERS "199.9.14.201" Scenario.apex_unresolved
           Scenario.example_com_answer Scenario.example_com_answer);
    run.
Qed.

(** C1 fails on the code.  On [reentrant_net] the lookup of
    ([example_com], A) gets a glueless referral to the nameserver
    [example_com] from the first root server; the nested lookup of that
    nameserver has the same key, finds every root server silent and stores
    the empty response under the key ([apex_unresolved]); the outer lookup
    then asks the second root server, gets an answer and stores it under
    the same key with the unguarded write of line 188 ([apex_end]): the
    value first written is replaced by a different one. *)
Theorem first_writer_overwritten :
  let key := (Scenario.example_com, rdatatype.A) in
  let net := Scenario.reentrant_net in
  attempt net (lookup net 2) key rdatatype.A Scenario.example_com ROOT_SERVERS
    "198.41.0.4" (log (Cycle Scenario.example_com ROOT_SERVERS) Scenario.fresh)
    = Some (Continue, Scenario.apex_unresolved)
  ∧ CACHE Scenario.apex_unresolved !! key = Some (make_response key)
  ∧ lookup net 3 Scenario.example_com rdatatype.A Scenario.fresh
    = Some (Normal Scenario.example_com_answer, Scenario.apex_end)
  ∧ Scenario.apex_end
    = store key Scenario.example_com_answer
        (sent_one ROOT_SERVERS "199.9.14.201" key Scenario.apex_unresolved)
  ∧ CACHE Scenario.apex_end !! key = Some Scenario.example_com_answer
  ∧ Scenario.example_com_answer ≠ make_response key.
Proof.
  intros key net.
  split; [exact apex_first_nameserver|].
  split; [apply lookup_insert_eq|].
  split; [|split; [reflexivity | split; [apply lookup_insert_eq | discriminate]]].
  rewrite lookup_miss by run.
  replace (select_nameservers (CACHE Scenario.fresh) Scenario.example_com)
    with ROOT_SERVERS by run.
  apply (while_true_returns net (lookup net 2) key rdatatype.A 1 Scenario.example_com
           ["198.41.0.4"%string] "199.9.14.201"%string (drop 2 ROOT_SERVERS)
           None Scenario.fresh (Some key) Scenario.apex_unresolved
           Scenario.example_com_answer Scenario.apex_end).
  - exact (for_ns_continues net (lookup net 2) key rdatatype.A Scenario.example_com
             ROOT_SERVERS [] "198.41.0.4"%string None
             (log (Cycle Scenario.example_com ROOT_SERVERS) Scenario.fresh)
             _ _ _ eq_refl apex_first_nameserver).
  - exact apex_second_nameserver.
Qed.

(** * Further properties of the engine *)

(** ** Entries of the cache are never changed by a later lookup *)

Lemma preserves_refl st : preserves st st.
Proof. by intros k v. Qed.

Lemma preserves_trans st1 st2 st3 :
  preserves st1 st2 → preserves st2 st3 → preserves st1 st3.
Proof. intros H12 H23 k v Hk. eauto. Qed.

Lemma preserves_same st st' : CACHE st' = CACHE st → preserves st st'.
Proof. intros H k v. by rewrite H. Qed.

Lemma preserves_preserves_but key st st' : preserves st st' → preserves_but key st st'.
Proof. intros H k v _. apply H. Qed.

Lemma preserves_but_trans key st1 st2 st3 :
  preserves_but key st1 st2 → preserves_but key st2 st3 → preserves_but key st1 st3.
Proof. intros H12 H23 k v Hne Hk. eauto. Qed.

Lemma preserves_but_store key response st : preserves_but key st (store key response st).
Proof. intros k v Hne Hk. cbn. by rewrite lookup_insert_ne. Qed.

Lemma preserves_store_if_absent key response st :
  preserves st (store_if_absent key response st).
Proof.
  unfold store_if_absent. destruct (CACHE st !! key) eqn:E; [apply preserves_refl|].
  intros k v Hk. cbn. rewrite lookup_insert_ne; [done | congruence].
Qed.

Lemma glue_preserves query additionals new_nameservers st :
  preserves st (glue query additionals new_nameservers st).2.
Proof.
  revert new_nameservers st.
  induction additionals as [|rr more IH]; intros acc st; cbn; [apply preserves_refl|].
  destruct (rr_rdataset rr) as [[|a l]| | | | | |]; cbn;
    eauto using preserves_refl, preserves_trans, preserves_store_if_absent.
Qed.

Section PreserveFacts.

Variable udp : nat → Query → Addr → Reply.
Variable lookup_rec : Name → RdataType → State → option (Completion Message * State).
Variable cache_key : Name * RdataType.
Variable qtype : RdataType.

Hypothesis lookup_rec_preserves : ∀ (n : Name) q st c st',
  lookup_rec n q st = Some (c, st') → preserves st st'.

Lemma glueless_preserves ns_names st found st' :
  glueless lookup_rec ns_names st = Some (found, st') → preserves st st'.
Proof using lookup_rec_preserves.
  revert st. induction ns_names as [|ns_name more IH]; intros st; cbn.
  { intros [= _ <-]. apply preserves_refl. }
  destruct (lookup_rec ns_name rdatatype.A _) as [[c st1]|] eqn:E; [|done].
  apply lookup_rec_preserves in E.
  intros H. destruct c as [ns_response|e].
  - destruct (flat_map a_addresses (answer ns_response)); simplify_eq;
      eauto using preserves_trans.
  - eauto using preserves_trans.
Qed.

Lemma classify_preserves (current_target : Name) query response st c st' :
  classify lookup_rec cache_key qtype current_target query response st = Some (c, st') →
  preserves_but cache_key st st'.
Proof using lookup_rec_preserves.
  unfold classify. intros H.
  repeat case_match; simplify_eq;
    try apply preserves_but_store;
    try (apply preserves_preserves_but, preserves_refl).
  all: match goal with
       | Hg : glue ?q ?a ?n ?s = (_, ?s2) |- _ =>
           pose proof (glue_preserves q a n s) as Hp; rewrite Hg in Hp; cbn in Hp
       end.
  all: apply preserves_preserves_but.
  all: eapply preserves_trans; [apply preserves_store_if_absent|].
  all: eauto using preserves_trans, glueless_preserves.
Qed.

Lemma attempt_preserves (current_target : Name) nameservers ns st flow st' :
  attempt udp lookup_rec cache_key qtype current_target nameservers ns st
    = Some (flow, st') →
  preserves_but cache_key st st'.
Proof using lookup_rec_preserves.
  unfold attempt, attempt_body. intros H.
  assert (preserves_but cache_key st
            (tick (log (Sent nameservers ns (make_query current_target qtype)) st)))
    as Hsent by (apply preserves_preserves_but, preserves_same; reflexivity).
  repeat case_match; simplify_eq; try exact Hsent.
  all: match goal with
       | Hc : classify _ _ _ _ _ _ _ = Some _ |- _ => apply classify_preserves in Hc
       end.
  all: eapply preserves_but_trans; [exact Hsent | done].
Qed.

Lemma for_ns_preserves (current_target : Name) nameservers remaining oq st flow oq' st' :
  for_ns udp lookup_rec cache_key qtype current_target nameservers remaining oq st
    = Some (flow, oq', st') →
  preserves_but cache_key st st'.
Proof using lookup_rec_preserves.
  revert oq st. induction remaining as [|ns more IH]; intros oq st; cbn.
  { intros [= _ _ <-]. apply preserves_preserves_but, preserves_refl. }
  destruct (attempt _ _ _ _ _ _ _ _) as [[flow1 st1]|] eqn:E; [|done].
  apply attempt_preserves in E.
  destruct flow1; intros H; simplify_eq; eauto using preserves_but_trans.
Qed.

Lemma while_true_preserves fuel (current_target : Name) nameservers oq st c st' :
  while_true udp lookup_rec cache_key qtype fuel current_target nameservers oq st
    = Some (c, st') →
  preserves_but cache_key st st'.
Proof using lookup_rec_preserves.
  revert current_target nameservers oq st.
  induction fuel as [|fuel IH]; intros target nss oq st; cbn; [done|].
  destruct (for_ns _ _ _ _ _ _ _ _ _) as [[[flow oq1] st1]|] eqn:E; [|done].
  apply for_ns_preserves in E.
  assert (preserves_but cache_key st st1) as Hst1 by exact E.
  destruct flow as [|response|target' nss'].
  - destruct oq1; intros [= _ <-]; [|done].
    eapply preserves_but_trans; [exact Hst1 | apply preserves_but_store].
  - by intros [= _ <-].
  - intros H. eapply preserves_but_trans; [exact Hst1 | eauto].
Qed.

End PreserveFacts.

Lemma lookup_preserves udp fuel (target_name : Name) qtype st c st' :
  lookup udp fuel target_name qtype st = Some (c, st') → preserves st st'.
Proof.
  revert target_name qtype st c st'.
  induction fuel as [|fuel IH]; intros n q st c st'; cbn; [done|].
  destruct (CACHE st !! (n, q)) as [cached|] eqn:E.
  - intros [= _ <-]. apply preserves_refl.
  - intros H k v Hk.
    eapply (while_true_preserves udp (lookup udp fuel) (n, q) q IH); [exact H | | exact Hk].
    congruence.
Qed.

(** X1.  A lookup never changes an entry that is in the cache when it is
    called: whatever it sends, receives and caches, and whatever its nested
    lookups do, every key cached before is cached afterwards with the same
    response. *)
Theorem lookup_keeps_cached_entries udp fuel (target_name : Name) qtype st c st' key cached :
  lookup udp fuel target_name qtype st = Some (c, st') →
  CACHE st !! key = Some cached →
  CACHE st' !! key = Some cached.
Proof. intros H. by apply (lookup_preserves _ _ _ _ _ _ _ H). Qed.

(** The lookups of [collect_results] for [alpha] on [chain_net]. *)

Example chain_lookup_alpha :
  lookup Scenario.chain_net 4 Scenario.alpha rdatatype.CNAME Scenario.fresh
  = Some (Normal Scenario.alpha_cname, Scenario.chain_s1).
Proof.
  apply (lookup_answered Scenario.chain_net 2 Scenario.alpha rdatatype.CNAME
           Scenario.fresh "198.41.0.4"%string (tail ROOT_SERVERS)
           Scenario.alpha_cname Scenario.alpha_cname); run.
Qed.

Example chain_lookup_beta :
  lookup Scenario.chain_net 4 Scenario.beta rdatatype.CNAME Scenario.chain_s1
  = Some (Normal Scenario.beta_cname, Scenario.chain_s2).
Proof.
  apply (lookup_answered Scenario.chain_net 2 Scenario.beta rdatatype.CNAME
           Scenario.chain_s1 "198.41.0.4"%string (tail ROOT_SERVERS)
           Scenario.beta_cname Scenario.beta_cname); run.
Qed.

Example chain_lookup_gamma :
  lookup Scenario.chain_net 4 Scenario.gamma rdatatype.CNAME Scenario.chain_s2
  = Some (Normal (Scenario.chain_nodata (Scenario.gamma, rdatatype.CNAME)),
          Scenario.chain_s3).
Proof.
  apply (lookup_answered Scenario.chain_net 2 Scenario.gamma rdatatype.CNAME
           Scenario.chain_s2 "198.41.0.4"%string (tail ROOT_SERVERS)
           (Scenario.chain_nodata (Scenario.gamma, rdatatype.CNAME))
           (Scenario.chain_nodata (Scenario.gamma, rdatatype.CNAME))); run.
Qed.

Example chain_lookup_gamma_a :
  lookup Scenario.chain_net 4 Scenario.gamma rdatatype.A Scenario.chain_s3
  = Some (Normal Scenario.gamma_a, Scenario.chain_s4).
Proof.
  apply (lookup_answered Scenario.chain_net 2 Scenario.gamma rdatatype.A
           Scenario.chain_s3 "198.41.0.4"%string (tail ROOT_SERVERS)
           Scenario.gamma_a Scenario.gamma_a); run.
Qed.

Example chain_lookup_gamma_aaaa :
  lookup Scenario.chain_net 4 Scenario.gamma rdatatype.AAAA Scenario.chain_s4
  = Some (Normal (Scenario.chain_nodata (Scenario.gamma, rdatatype.AAAA)),
          Scenario.chain_s5).
Proof.
  apply (lookup_answered Scenario.chain_net 2 Scenario.gamma rdatatype.AAAA
           Scenario.chain_s4 "198.41.0.4"%string (tail ROOT_SERVERS)
           (Scenario.chain_nodata (Scenario.gamma, rdatatype.AAAA))
           (Scenario.chain_nodata (Scenario.gamma, rdatatype.AAAA))); run.
Qed.

Example chain_lookup_gamma_mx :
  lookup Scenario.chain_net 4 Scenario.gamma rdatatype.MX Scenario.chain_s5
  = Some (Normal Scenario.gamma_mx, Scenario.chain_s6).
Proof.
  apply (lookup_answered Scenario.chain_net 2 Scenario.gamma rdatatype.MX
           Scenario.chain_s5 "198.41.0.4"%string (tail ROOT_SERVERS)
           Scenario.gamma_mx Scenario.gamma_mx); run.
Qed.

Example chain_alpha_cached :
  CACHE Scenario.chain_s1 !! (Scenario.alpha, rdatatype.CNAME)
  = Some Scenario.alpha_cname.
Proof. apply lookup_insert_eq. Qed.

Lemma lookup_keeps_cached_entries_witness :
  CACHE Scenario.chain_s2 !! (Scenario.alpha, rdatatype.CNAME)
  = Some Scenario.alpha_cname.
Proof.
  exact (lookup_keeps_cached_entries _ _ _ _ _ _ _ _ _
           chain_lookup_beta chain_alpha_cached).
Defined.

(** ** Repeated lookups *)

Lemma lookup_fuel udp fuel (target_name : Name) qtype st result :
  lookup udp fuel target_name qtype st = Some result → ∃ fuel', fuel = S fuel'.
Proof. destruct fuel; [done | eauto]. Qed.

(** A lookup that has returned returns the same response, and changes
    nothing, in any later state that kept the cache entries. *)
Lemma lookup_again udp fuel fuel' (target_name : Name) qtype st returned st1 st2 :
  lookup udp fuel target_name qtype st = Some (Normal returned, st1) →
  preserves st1 st2 →
  lookup udp (S fuel') target_name qtype st2 = Some (Normal returned, st2).
Proof.
  intros Hlookup Hkeep. apply lookup_hit, Hkeep. by eapply lookup_cached.
Qed.

Lemma lookup_again_same udp fuel (target_name : Name) qtype st returned st1 st2 :
  lookup udp fuel target_name qtype st = Some (Normal returned, st1) →
  preserves st1 st2 →
  lookup udp fuel target_name qtype st2 = Some (Normal returned, st2).
Proof.
  intros Hlookup Hkeep. destruct (lookup_fuel _ _ _ _ _ _ Hlookup) as [f ->].
  by eapply lookup_again.
Qed.

Lemma lookups_preserves udp calls st st' :
  lookups udp calls st = Some st' → preserves st st'.
Proof.
  revert st. induction calls as [|[[fuel name] qtype] more IH]; intros st; cbn.
  - intros [= <-]. apply preserves_refl.
  - destruct (lookup udp fuel name qtype st) as [[c st1]|] eqn:E; [|done].
    intros Hmore. eapply preserves_trans; [by eapply lookup_preserves | by apply IH].
Qed.

(** X2.  A lookup that is started in the state in which a lookup of the
    same key returned, or in a state reached from there by any sequence of
    complete lookups (of any names and types, made one after the other),
    returns the response the first one returned, sends nothing and changes
    nothing.  The states inside a lookup that is still running are not
    of this kind: there the entry of a nested lookup of the same key can be
    replaced by the unguarded write of line 188. *)
Theorem lookup_stable udp fuel fuel' (target_name : Name) qtype st returned st1
    calls st2 :
  lookup udp fuel target_name qtype st = Some (Normal returned, st1) →
  lookups udp calls st1 = Some st2 →
  lookup udp (S fuel') target_name qtype st2 = Some (Normal returned, st2).
Proof.
  intros Hfirst Hcalls.
  exact (lookup_again _ _ _ _ _ _ _ _ _ Hfirst (lookups_preserves _ _ _ _ Hcalls)).
Qed.

Lemma lookup_stable_witness :
  lookup Scenario.chain_net 1 Scenario.alpha rdatatype.CNAME Scenario.chain_s3
  = Some (Normal Scenario.alpha_cname, Scenario.chain_s3).
Proof.
  apply (lookup_stable Scenario.chain_net 4 0 Scenario.alpha rdatatype.CNAME
           Scenario.fresh Scenario.alpha_cname Scenario.chain_s1
           [(4, Scenario.beta, rdatatype.CNAME); (4, Scenario.gamma, rdatatype.CNAME)]
           Scenario.chain_s3 chain_lookup_alpha).
  cbn [lookups]. by rewrite chain_lookup_beta, chain_lookup_gamma.
Defined.

(** ** [collect_results] as a whole *)

Section CollectFacts.

Variable udp : nat → Query → Addr → Reply.
Variable lookup_fuel' : nat.


Lemma follow_cnames_preserves fuel (name : Name) cnames st c st' :
  follow_cnames (lookup udp lookup_fuel') fuel name cnames st = Some (c, st') →
  preserves st st'.
Proof.
  revert name cnames st.
  induction fuel as [|fuel IH]; intros name cnames st; cbn; [done|].
  destruct (lookup udp lookup_fuel' name rdatatype.CNAME st) as [[c1 st1]|] eqn:E; [|done].
  apply lookup_preserves in E. destruct c1 as [response|e].
  - destruct (first_cname response).
    + intros H. eapply preserves_trans; [exact E | eauto].
    + by intros [= _ <-].
  - by intros [= _ <-].
Qed.

Lemma follow_cnames_linked fuel (name : Name) cnames st (final : Name) found st' :
  follow_cnames (lookup udp lookup_fuel') fuel name cnames st
    = Some (Normal (final, found), st') →
  ∃ steps, found = cnames ++ steps ∧ linked name steps final.
Proof.
  revert name cnames st.
  induction fuel as [|fuel IH]; intros name cnames st; cbn; [done|].
  destruct (lookup udp lookup_fuel' name rdatatype.CNAME st) as [[[response|e] st1]|];
    [|done|done].
  destruct (first_cname response) as [target|].
  - intros H. destruct (IH _ _ _ H) as (steps & -> & Hlinked).
    exists (mkCnameResult target name :: steps). split; [by rewrite <- app_assoc|].
    by split.
  - intros [= <- <- _]. exists []. split; [by rewrite app_nil_r | done].
Qed.

Lemma follow_cnames_again fuel (name : Name) cnames st (final : Name) found st1 st2 :
  follow_cnames (lookup udp lookup_fuel') fuel name cnames st
    = Some (Normal (final, found), st1) →
  preserves st1 st2 →
  follow_cnames (lookup udp lookup_fuel') fuel name cnames st2
  = Some (Normal (final, found), st2).
Proof.
  revert name cnames st.
  induction fuel as [|fuel IH]; intros name cnames st; cbn; [done|].
  destruct (lookup udp lookup_fuel' name rdatatype.CNAME st) as [[[response|e] sta]|] eqn:E;
    [|done|done].
  intros Hrest Hkeep.
  assert (preserves sta st1) as Hsta.
  { destruct (first_cname response).
    - by eapply follow_cnames_preserves.
    - injection Hrest as _ _ <-. apply preserves_refl. }
  rewrite (lookup_again_same _ _ _ _ _ _ _ _ E (preserves_trans _ _ _ Hsta Hkeep)).
  destruct (first_cname response); [by eapply IH | by injection Hrest as <- <- _].
Qed.


Lemma collect_records_preserves (final_name : Name) cnames st c st' :
  collect_records (lookup udp lookup_fuel') final_name cnames st = Some (c, st') →
  preserves st st'.
Proof.
  unfold collect_records.
  destruct (lookup udp lookup_fuel' final_name rdatatype.A st) as [[c1 st1]|] eqn:E1;
    [|done].
  apply lookup_preserves in E1. destruct c1 as [r1|e]; [|by intros [= _ <-]].
  destruct (lookup udp lookup_fuel' final_name rdatatype.AAAA st1) as [[c2 st2]|] eqn:E2;
    [|done].
  apply lookup_preserves in E2.
  destruct c2 as [r2|e]; [|intros [= _ <-]; eauto using preserves_trans].
  destruct (lookup udp lookup_fuel' final_name rdatatype.MX st2) as [[c3 st3]|] eqn:E3;
    [|done].
  apply lookup_preserves in E3.
  destruct c3 as [r3|e]; intros [= _ <-]; eauto using preserves_trans.
Qed.

Lemma collect_records_again (final_name : Name) cnames st results st1 st2 :
  collect_records (lookup udp lookup_fuel') final_name cnames st
    = Some (Normal results, st1) →
  preserves st1 st2 →
  collect_records (lookup udp lookup_fuel') final_name cnames st2
  = Some (Normal results, st2).
Proof.
  unfold collect_records.
  destruct (lookup udp lookup_fuel' final_name rdatatype.A st) as [[[r1|e] sa]|] eqn:E1;
    [|done|done].
  destruct (lookup udp lookup_fuel' final_name rdatatype.AAAA sa) as [[[r2|e] sb]|] eqn:E2;
    [|done|done].
  destruct (lookup udp lookup_fuel' final_name rdatatype.MX sb) as [[[r3|e] sc]|] eqn:E3;
    [|done|done].
  intros [= <- <-] Hkeep.
  pose proof (lookup_preserves _ _ _ _ _ _ _ E2) as H2.
  pose proof (lookup_preserves _ _ _ _ _ _ _ E3) as H3.
  rewrite (lookup_again_same _ _ _ _ _ _ _ _ E1
             (preserves_trans _ _ _ H2 (preserves_trans _ _ _ H3 Hkeep))).
  rewrite (lookup_again_same _ _ _ _ _ _ _ _ E2 (preserves_trans _ _ _ H3 Hkeep)).
  by rewrite (lookup_again_same _ _ _ _ _ _ _ _ E3 Hkeep).
Qed.

End CollectFacts.



Lemma collect_results_preserves udp from_text fuel name st c st' :
  collect_results udp from_text fuel name st = Some (c, st') → preserves st st'.
Proof.
  unfold collect_results, collect_from.
  destruct (from_text name) as [target_name|e0];
    [|intros [= _ <-]; apply preserves_refl].
  destruct (follow_cnames _ _ _ _ _) as [[c1 st1]|] eqn:E; [|done].
  apply follow_cnames_preserves in E. destruct c1 as [[final cnames]|e].
  - intros H. apply collect_records_preserves in H. eauto using preserves_trans.
  - by intros [= _ <-].
Qed.

Lemma collect_results_again udp from_text fuel name st results st1 st2 :
  collect_results udp from_text fuel name st = Some (Normal results, st1) →
  preserves st1 st2 →
  collect_results udp from_text fuel name st2 = Some (Normal results, st2).
Proof.
  unfold collect_results, collect_from.
  destruct (from_text name) as [target_name|e0]; [|done].
  destruct (follow_cnames _ _ _ _ _) as [[[[final cnames]|e] sa]|] eqn:E; [|done|done].
  intros Hrecords Hkeep.
  pose proof (collect_records_preserves _ _ _ _ _ _ _ Hrecords) as Hsa.
  rewrite (follow_cnames_again _ _ _ _ _ _ _ _ _ _ E (preserves_trans _ _ _ Hsa Hkeep)).
  by apply (collect_records_again _ _ _ _ _ _ _ _ Hrecords).
Qed.

(** [collect_results] for [alpha] on [chain_net], from a fresh process. *)
Example chain_collect :
  collect_results Scenario.chain_net Scenario.from_text 4 "alpha" Scenario.fresh
  = Some (Normal Scenario.chain_results, Scenario.chain_s6).
Proof.
  unfold collect_results.
  replace (Scenario.from_text "alpha") with (Normal Scenario.alpha) by run.
  unfold collect_from.
  rewrite (follow_cnames_chain (lookup Scenario.chain_net 4) 4 Scenario.alpha
             Scenario.fresh
             [mkCnameResult Scenario.beta Scenario.alpha;
              mkCnameResult Scenario.gamma Scenario.beta]
             Scenario.gamma Scenario.chain_s3 []).
  - unfold collect_records.
    rewrite chain_lookup_gamma_a, chain_lookup_gamma_aaaa, chain_lookup_gamma_mx.
    reflexivity.
  - eapply alias_chain_step; [exact chain_lookup_alpha | reflexivity |].
    eapply alias_chain_step; [exact chain_lookup_beta | reflexivity |].
    eapply alias_chain_end; [exact chain_lookup_gamma | reflexivity].
  - cbn. lia.
Qed.





(** What [collect_results] returns is made of cached responses. *)
Lemma collect_records_cached udp fuel (final_name : Name) cnames st results st' :
  collect_records (lookup udp fuel) final_name cnames st = Some (Normal results, st') →
  results_CNAME results = cnames
  ∧ ∃ response_a response_aaaa response_mx,
      CACHE st' !! (final_name, rdatatype.A) = Some response_a
      ∧ CACHE st' !! (final_name, rdatatype.AAAA) = Some response_aaaa
      ∧ CACHE st' !! (final_name, rdatatype.MX) = Some response_mx
      ∧ results_A results = arecords response_a
      ∧ results_AAAA results = aaaarecords response_aaaa
      ∧ results_MX results = mxrecords response_mx.
Proof.
  unfold collect_records.
  destruct (lookup udp fuel final_name rdatatype.A st) as [[[r1|e] sa]|] eqn:E1;
    [|done|done].
  destruct (lookup udp fuel final_name rdatatype.AAAA sa) as [[[r2|e] sb]|] eqn:E2;
    [|done|done].
  destruct (lookup udp fuel final_name rdatatype.MX sb) as [[[r3|e] sc]|] eqn:E3;
    [|done|done].
  intros [= <- <-]. split; [done|]. exists r1, r2, r3.
  pose proof (lookup_preserves _ _ _ _ _ _ _ E2) as H2.
  pose proof (lookup_preserves _ _ _ _ _ _ _ E3) as H3.
  repeat split.
  - apply H3, H2. by eapply lookup_cached.
  - apply H3. by eapply lookup_cached.
  - by eapply lookup_cached.
Qed.

(** X4.  The alias steps [collect_results] returns form a chain that starts
    at the queried name: each step is an alias of the name the step before
    points to.  The address and mail records it returns are those of the
    responses that are cached, when it returns, under the A, AAAA and MX
    keys of the name the chain ends with. *)
Theorem collect_results_chain_linked udp from_text fuel name st results st' :
  collect_results udp from_text fuel name st = Some (Normal results, st') →
  ∃ (target_name final : Name) response_a response_aaaa response_mx,
    from_text name = Normal target_name
    ∧ linked target_name (results_CNAME results) final
    ∧ CACHE st' !! (final, rdatatype.A) = Some response_a
    ∧ CACHE st' !! (final, rdatatype.AAAA) = Some response_aaaa
    ∧ CACHE st' !! (final, rdatatype.MX) = Some response_mx
    ∧ results_A results = arecords response_a
    ∧ results_AAAA results = aaaarecords response_aaaa
    ∧ results_MX results = mxrecords response_mx.
Proof.
  unfold collect_results, collect_from.
  destruct (from_text name) as [target_name|e0]; [|done].
  destruct (follow_cnames _ _ _ _ _) as [[[[final cnames]|e] sa]|] eqn:E; [|done|done].
  intros Hrecords.
  destruct (follow_cnames_linked _ _ _ _ _ _ _ _ _ E) as (steps & -> & Hlinked).
  destruct (collect_records_cached _ _ _ _ _ _ _ Hrecords)
    as (Hcnames & ra & raaaa & rmx & H).
  exists target_name, final, ra, raaaa, rmx. by rewrite Hcnames.
Qed.

Lemma collect_results_chain_linked_witness :
  ∃ (target_name final : Name) response_a response_aaaa response_mx,
    Scenario.from_text "alpha" = Normal target_name
    ∧ linked target_name (results_CNAME Scenario.chain_results) final
    ∧ CACHE Scenario.chain_s6 !! (final, rdatatype.A) = Some response_a
    ∧ CACHE Scenario.chain_s6 !! (final, rdatatype.AAAA) = Some response_aaaa
    ∧ CACHE Scenario.chain_s6 !! (final, rdatatype.MX) = Some response_mx
    ∧ results_A Scenario.chain_results = arecords response_a
    ∧ results_AAAA Scenario.chain_results = aaaarecords response_aaaa
    ∧ results_MX Scenario.chain_results = mxrecords response_mx.
Proof. exact (collect_results_chain_linked _ _ _ _ _ _ _ chain_collect). Defined.

(** X5.  Once [collect_results] has returned for a name, calling it again
    for that name returns the same results, sends nothing and changes
    nothing: every lookup it makes is served from the cache.  This holds
    right away and also after [collect_results] has run for any other name
    in between. *)
Theorem collect_results_idempotent udp from_text fuel fuel' name other st results st1
    c st2 :
  collect_results udp from_text fuel name st = Some (Normal results, st1) →
  collect_results udp from_text fuel' other st1 = Some (c, st2) →
  collect_results udp from_text fuel name st1 = Some (Normal results, st1)
  ∧ collect_results udp from_text fuel name st2 = Some (Normal results, st2).
Proof.
  intros Hfirst Hother. split.
  - exact (collect_results_again _ _ _ _ _ _ _ _ Hfirst (preserves_refl _)).
  - exact (collect_results_again _ _ _ _ _ _ _ _ Hfirst
             (collect_results_preserves _ _ _ _ _ _ _ Hother)).
Qed.

Lemma collect_results_idempotent_witness :
  collect_results Scenario.chain_net Scenario.from_text 4 "alpha" Scenario.chain_s6
  = Some (Normal Scenario.chain_results, Scenario.chain_s6).
Proof.
  destruct (collect_results_idempotent _ _ _ _ _ _ _ _ _ _ _
              chain_collect
              (collect_results_again _ _ _ _ _ _ _ _ chain_collect (preserves_refl _)))
    as [H _].
  exact H.
Defined.

(** X6.  When the same name is given twice on the command line, [main]
    prints the same lines for it twice, and the process ends in the state
    the first resolution left: the second one costs no datagram. *)
Theorem main_repeated_name to_text udp from_text fuel name st results st1 :
  collect_results udp from_text fuel name st = Some (Normal results, st1) →
  main_loop to_text udp from_text fuel [name; name] st
  = Some (print_results to_text results ++ print_results to_text results,
          Normal tt, st1).
Proof.
  intros Hfirst. cbn [main_loop]. rewrite Hfirst.
  rewrite (collect_results_again _ _ _ _ _ _ _ _ Hfirst (preserves_refl _)).
  by rewrite app_nil_r.
Qed.

Lemma main_repeated_name_witness :
  main_loop Scenario.dotted Scenario.chain_net Scenario.from_text 4
    ["alpha"; "alpha"]%string Scenario.fresh
  = Some (["alpha. is an alias for beta."; "beta. is an alias for gamma.";
           "gamma. has address 192.0.2.7"; "gamma. mail is handled by 10 mail.";
           "alpha. is an alias for beta."; "beta. is an alias for gamma.";
           "gamma. has address 192.0.2.7"; "gamma. mail is handled by 10 mail."]%string,
          Normal tt, Scenario.chain_s6).
Proof.
  exact (main_repeated_name Scenario.dotted _ _ _ _ _ _ _ chain_collect).
Defined.

(** ** What one attempt can do to the loop *)

(** X7.  An attempt that hands over to a next cycle either keeps the
    current target and gives a non-empty nameserver set (a referral), or
    belongs to a lookup of a type other than CNAME, leaves the cache as it
    was and gives the Root Hints as the nameserver set (an alias).  So the
    target never changes without a restart from the Root Hints, and never
    changes at all in a lookup of type CNAME. *)
Theorem break_keeps_target_or_restarts udp lookup_rec cache_key qtype
    (current_target : Name) nameservers ns st (target' : Name) nameservers' st' :
  attempt udp lookup_rec cache_key qtype current_target nameservers ns st
    = Some (Break target' nameservers', st') →
  (target' = current_target ∧ nameservers' ≠ [])
  ∨ (qtype ≠ rdatatype.CNAME ∧ nameservers' = ROOT_SERVERS ∧ CACHE st' = CACHE st).
Proof.
  unfold attempt, attempt_body, classify. intros H.
  repeat case_match; simplify_eq; try (left; split; [done | discriminate]).
  right. split; [|done].
  match goal with Hq : bool_decide _ = false |- _ => by apply bool_decide_eq_false in Hq end.
Qed.

Lemma break_keeps_target_or_restarts_witness :
  (Scenario.www = Scenario.www ∧ Scenario.lame_set ≠ [])
  ∨ (rdatatype.A ≠ rdatatype.CNAME ∧ Scenario.lame_set = ROOT_SERVERS
     ∧ CACHE Scenario.lame_second_cycle
       = CACHE (log (Cycle Scenario.www ROOT_SERVERS) Scenario.fresh)).
Proof. exact (break_keeps_target_or_restarts _ _ _ _ _ _ _ _ _ _ _ lame_first_cycle). Defined.

(** ** Answers *)



(** ** Cycles without result *)

Section UnusableFacts.

Variable udp : nat → Query → Addr → Reply.
Variable lookup_rec : Name → RdataType → State → option (Completion Message * State).
Variable cache_key : Name * RdataType.
Variable qtype : RdataType.

Lemma attempt_unusable (current_target : Name) nameservers ns st :
  unusable (udp (clock st) (make_query current_target qtype) ns) →
  attempt udp lookup_rec cache_key qtype current_target nameservers ns st
  = Some (Continue, sent_one nameservers ns (make_query current_target qtype) st).
Proof.
  intros H. destruct (udp (clock st) (make_query current_target qtype) ns)
    as [response|e] eqn:E.
  - destruct H as [Hanswer Hauthority].
    rewrite (attempt_received _ _ _ _ _ _ _ _ _ E). unfold classify.
    by rewrite Hanswer, Hauthority.
  - by apply attempt_failed with e.
Qed.

Lemma for_ns_all_unusable (current_target : Name) nameservers remaining oq st :
  (∀ i ns, remaining !! i = Some ns →
     unusable (udp (clock st + i) (make_query current_target qtype) ns)) →
  for_ns udp lookup_rec cache_key qtype current_target nameservers remaining oq st
  = Some (Continue,
          match remaining with
          | [] => oq
          | _ => Some (make_query current_target qtype)
          end,
          sent_all nameservers (make_query current_target qtype) remaining st).
Proof.
  revert oq st. induction remaining as [|ns more IH]; intros oq st Hall; [done|].
  cbn [for_ns].
  pose proof (Hall 0 ns eq_refl) as H0. rewrite Nat.add_0_r in H0.
  rewrite (attempt_unusable _ _ _ _ H0). rewrite IH.
  - by destruct more.
  - intros i ns' Hi. specialize (Hall (S i) ns' Hi).
    cbn. by rewrite <- Nat.add_succ_r.
Qed.

End UnusableFacts.

(** X9.  In any cycle, when every nameserver of the current set either
    fails or sends a response with neither an answer nor an authority
    section (a refusal, say), the lookup ends like after a failure of them
    all: the empty response to the query is stored under the original key
    and returned, and nothing else is written to the cache. *)
Theorem unusable_replies_exhaust udp lookup_rec cache_key qtype fuel
    (current_target : Name) (nameservers : list Addr) outbound_query st :
  nameservers ≠ [] →
  (∀ i ns, nameservers !! i = Some ns →
     unusable (udp (clock st + i) (make_query current_target qtype) ns)) →
  let query := make_query current_target qtype in
  let st' := store cache_key (make_response query)
               (sent_all nameservers query nameservers
                  (log (Cycle current_target nameservers) st)) in
  while_true udp lookup_rec cache_key qtype (S fuel) current_target nameservers
    outbound_query st = Some (Normal (make_response query), st')
  ∧ CACHE st' = <[cache_key := make_response query]> (CACHE st)
  ∧ clock st' = clock st + length nameservers.
Proof.
  intros Hne Hall query st'. subst st'. split; [|split].
  - cbn [while_true]. rewrite for_ns_all_unusable by exact Hall.
    by destruct nameservers.
  - cbn. by rewrite CACHE_sent_all.
  - cbn. by rewrite clock_sent_all.
Qed.

Lemma unusable_replies_exhaust_witness :
  let key := (Scenario.www, rdatatype.A) in
  let st' := store key (make_response key)
               (sent_all ROOT_SERVERS key ROOT_SERVERS
                  (log (Cycle Scenario.www ROOT_SERVERS) Scenario.fresh)) in
  while_true Scenario.refusing_all_net (lookup Scenario.refusing_all_net 1) key
    rdatatype.A 1 Scenario.www ROOT_SERVERS None Scenario.fresh
  = Some (Normal (make_response key), st')
  ∧ CACHE st' = <[key := make_response key]> (CACHE Scenario.fresh)
  ∧ clock st' = 13.
Proof.
  apply (unusable_replies_exhaust Scenario.refusing_all_net
           (lookup Scenario.refusing_all_net 1) (Scenario.www, rdatatype.A) rdatatype.A 0
           Scenario.www ROOT_SERVERS None Scenario.fresh).
  - discriminate.
  - intros i ns _. split; reflexivity.
Defined.

(** X10.  An alias whose target cannot be reached: in a lookup of a type
    other than CNAME, when a response holds a CNAME RRset with first target
    [alias_target] and then no root server replies to the query for
    [alias_target], the lookup returns the empty response to the query for
    [alias_target], and it is under the original key, not under the key of
    [alias_target], that this response is cached. *)
Theorem alias_to_unreachable_target udp lookup_rec cache_key qtype fuel
    (current_target : Name) tried ns rest outbound_query st outbound_query1 st1
    response cname (alias_target : Name) others :
  let nameservers := tried ++ ns :: rest in
  let query := make_query current_target qtype in
  let st2 := sent_one nameservers ns query st1 in
  let empty := make_response (make_query alias_target qtype) in
  let st' := store cache_key empty
               (sent_all ROOT_SERVERS (make_query alias_target qtype) ROOT_SERVERS
                  (log (Cycle alias_target ROOT_SERVERS) st2)) in
  qtype ≠ rdatatype.CNAME →
  for_ns udp lookup_rec cache_key qtype current_target nameservers tried outbound_query
    (log (Cycle current_target nameservers) st) = Some (Continue, outbound_query1, st1) →
  udp (clock st1) query ns = Received response →
  find is_cname (answer response) = Some cname →
  cname_targets cname = alias_target :: others →
  (∀ i root, ROOT_SERVERS !! i = Some root →
     ∃ e, udp (clock st2 + i) (make_query alias_target qtype) root = Failed e) →
  while_true udp lookup_rec cache_key qtype (S (S fuel)) current_target nameservers
    outbound_query st = Some (Normal empty, st')
  ∧ question empty = (alias_target, qtype)
  ∧ CACHE st' = <[cache_key := empty]> (CACHE st1).
Proof.
  intros nameservers query st2 empty st' Hqtype Htried Hudp Hfind Htarget Hfail.
  assert (attempt udp lookup_rec cache_key qtype current_target nameservers ns st1
          = Some (Break alias_target ROOT_SERVERS, st2)) as Hattempt.
  { rewrite (attempt_received _ _ _ _ _ _ _ _ _ Hudp). unfold classify.
    destruct (answer response) as [|answer0 more] eqn:E; [done|].
    rewrite bool_decide_eq_false_2 by done. by rewrite Hfind, Htarget. }
  split; [|split; [done|]].
  - rewrite (while_true_breaks _ _ _ _ _ _ _ _ _ _ _ _ _ _ _ _ Htried Hattempt).
    apply while_true_exhausted; [apply ROOT_SERVERS_nonempty | exact Hfail].
  - subst st'. unfold store. cbn [CACHE]. by rewrite CACHE_sent_all.
Qed.

Lemma alias_to_unreachable_target_witness :
  let key := (Scenario.www, rdatatype.A) in
  let empty := make_response (Scenario.example_com, rdatatype.A) in
  let st2 := sent_one ROOT_SERVERS "198.41.0.4" key
               (log (Cycle Scenario.www ROOT_SERVERS) Scenario.fresh) in
  let st' := store key empty
               (sent_all ROOT_SERVERS (Scenario.example_com, rdatatype.A) ROOT_SERVERS
                  (log (Cycle Scenario.example_com ROOT_SERVERS) st2)) in
  while_true Scenario.dangling_net (lookup Scenario.dangling_net 2) key rdatatype.A 2
    Scenario.www ROOT_SERVERS None Scenario.fresh = Some (Normal empty, st')
  ∧ question empty = (Scenario.example_com, rdatatype.A)
  ∧ CACHE st' = <[key := empty]> (CACHE Scenario.fresh).
Proof.
  apply (alias_to_unreachable_target Scenario.dangling_net
           (lookup Scenario.dangling_net 2) (Scenario.www, rdatatype.A) rdatatype.A 0
           Scenario.www [] "198.41.0.4"%string (tail ROOT_SERVERS) None Scenario.fresh
           None (log (Cycle Scenario.www ROOT_SERVERS) Scenario.fresh)
           Scenario.www_alias (mkRRset Scenario.www (CNAME_rdataset [Scenario.example_com]))
           Scenario.example_com []).
  - discriminate.
  - reflexivity.
  - run.
  - reflexivity.
  - reflexivity.
  - intros i root _. exists Timeout. reflexivity.
Defined.

(** ** Datagrams *)

Section ClockFacts.

Variable udp : nat → Query → Addr → Reply.
Variable lookup_rec : Name → RdataType → State → option (Completion Message * State).
Variable cache_key : Name * RdataType.
Variable qtype : RdataType.

Hypothesis lookup_rec_clock : ∀ (n : Name) q st c st',
  lookup_rec n q st = Some (c, st') → clock st ≤ clock st'.

Lemma glueless_clock ns_names st found st' :
  glueless lookup_rec ns_names st = Some (found, st') → clock st ≤ clock st'.
Proof using lookup_rec_clock.
  revert st. induction ns_names as [|ns_name more IH]; intros st; cbn.
  { by intros [= _ <-]. }
  destruct (lookup_rec ns_name rdatatype.A _) as [[c st1]|] eqn:E; [|done].
  apply lookup_rec_clock in E. cbn in E.
  intros H. destruct c as [ns_response|e].
  - destruct (flat_map a_addresses (answer ns_response)); simplify_eq; [|done].
    apply IH in H. lia.
  - apply IH in H. lia.
Qed.

Lemma classify_clock (current_target : Name) query response st c st' :
  classify lookup_rec cache_key qtype current_target query response st = Some (c, st') →
  clock st ≤ clock st'.
Proof using lookup_rec_clock.
  unfold classify. intros H.
  repeat case_match; simplify_eq; try done.
  all: match goal with
       | Hg : glue ?q ?a ?n ?s = (_, ?s2) |- _ =>
           pose proof (glue_clock q a n s) as Hc; rewrite Hg in Hc; cbn in Hc;
           rewrite clock_store_if_absent in Hc
       end.
  all: try (rewrite Hc; done).
  all: match goal with
       | Hg : glueless _ _ _ = Some _ |- _ => apply glueless_clock in Hg
       end.
  all: lia.
Qed.

Lemma attempt_clock (current_target : Name) nameservers ns st flow st' :
  attempt udp lookup_rec cache_key qtype current_target nameservers ns st
    = Some (flow, st') →
  clock st < clock st'.
Proof using lookup_rec_clock.
  unfold attempt, attempt_body. intros H.
  repeat case_match; simplify_eq; cbn; try lia.
  all: match goal with
       | Hc : classify _ _ _ _ _ _ _ = Some _ |- _ => apply classify_clock in Hc
       end.
  all: cbn in *; lia.
Qed.

Lemma for_ns_clock (current_target : Name) nameservers remaining oq st flow oq' st' :
  for_ns udp lookup_rec cache_key qtype current_target nameservers remaining oq st
    = Some (flow, oq', st') →
  clock st ≤ clock st' ∧ (remaining ≠ [] → clock st < clock st').
Proof using lookup_rec_clock.
  revert oq st. induction remaining as [|ns more IH]; intros oq st; cbn.
  { intros [= _ _ <-]. split; [done | by intros []]. }
  destruct (attempt _ _ _ _ _ _ _ _) as [[flow1 st1]|] eqn:E; [|done].
  apply attempt_clock in E.
  destruct flow1; intros H; simplify_eq; try (split; intros; lia).
  apply IH in H. split; intros; lia.
Qed.

Lemma while_true_clock fuel (current_target : Name) nameservers oq st c st' :
  nameservers ≠ [] →
  while_true udp lookup_rec cache_key qtype fuel current_target nameservers oq st
    = Some (c, st') →
  clock st < clock st'.
Proof using lookup_rec_clock.
  revert current_target nameservers oq st.
  induction fuel as [|fuel IH]; intros target nss oq st Hne; cbn; [done|].
  destruct (for_ns _ _ _ _ _ _ _ _ _) as [[[flow oq1] st1]|] eqn:E; [|done].
  destruct (for_ns_clock _ _ _ _ _ _ _ _ E) as [_ Hlt]. specialize (Hlt Hne). cbn in Hlt.
  destruct flow as [|response|target' nss'].
  - destruct oq1; intros [= _ <-]; cbn; lia.
  - intros [= _ <-]. lia.
  - intros H. apply IH in H; [lia|]. by eapply for_ns_break_nonempty.
Qed.

End ClockFacts.

Lemma lookup_clock udp fuel (target_name : Name) qtype st c st' :
  lookup udp fuel target_name qtype st = Some (c, st') → clock st ≤ clock st'.
Proof.
  revert target_name qtype st c st'.
  induction fuel as [|fuel IH]; intros n q st c st'; cbn; [done|].
  destruct (CACHE st !! (n, q)) as [cached|].
  - by intros [= _ <-].
  - intros H. apply Nat.lt_le_incl.
    eapply (while_true_clock udp (lookup udp fuel) (n, q) q IH);
      [apply select_nameservers_nonempty | exact H].
Qed.

(** X11.  The network is used exactly on a cache miss: a lookup of a key
    that is cached returns the cached response and leaves the whole state,
    the count of datagrams included, as it was; a lookup of a key that is
    not cached sends at least one datagram before it returns. *)
Theorem datagrams_only_on_miss udp fuel (target_name : Name) qtype st c st' :
  lookup udp fuel target_name qtype st = Some (c, st') →
  (∀ cached, CACHE st !! (target_name, qtype) = Some cached →
     c = Normal cached ∧ st' = st)
  ∧ (CACHE st !! (target_name, qtype) = None → clock st < clock st').
Proof.
  destruct fuel as [|fuel]; cbn; [done|].
  destruct (CACHE st !! (target_name, qtype)) as [cached|] eqn:E.
  - intros [= <- <-]. split; [by intros ? [= <-] | done].
  - intros H. split; [done|]. intros _.
    eapply (while_true_clock udp (lookup udp fuel) (target_name, qtype) qtype);
      [intros *; apply lookup_clock | apply select_nameservers_nonempty | exact H].
Qed.

Lemma datagrams_only_on_miss_witness :
  (∀ cached, CACHE Scenario.chain_s1 !! (Scenario.beta, rdatatype.CNAME) = Some cached →
     Normal Scenario.beta_cname = Normal cached ∧ Scenario.chain_s2 = Scenario.chain_s1)
  ∧ (CACHE Scenario.chain_s1 !! (Scenario.beta, rdatatype.CNAME) = None →
     clock Scenario.chain_s1 < clock Scenario.chain_s2).
Proof. exact (datagrams_only_on_miss _ _ _ _ _ _ _ chain_lookup_beta). Defined.

(** ** A referral narrows the later lookups *)

Lemma preserves_cached_addresses st st' (ns_name : Name) :
  preserves st st' →
  cached_addresses (CACHE st) ns_name ≠ [] →
  cached_addresses (CACHE st') ns_name ≠ [].
Proof.
  unfold cached_addresses. intros Hkeep.
  destruct (CACHE st !! (ns_name, rdatatype.A)) as [ns_response|] eqn:E; [|done].
  by rewrite (Hkeep _ _ E).
Qed.

(** Reading the additional section leaves every glued name with a cached
    address, unless an address-less entry for it was cached before. *)
Lemma glue_caches query additionals new_nameservers st rr address others :
  Forall (λ rr, rr_rdataset rr ≠ A_rdataset []) additionals →
  rr ∈ additionals →
  rr_rdataset rr = A_rdataset (address :: others) →
  CACHE st !! (rr_name rr, rdatatype.A) = None
    ∨ cached_addresses (CACHE st) (rr_name rr) ≠ [] →
  cached_addresses (CACHE (glue query additionals new_nameservers st).2) (rr_name rr) ≠ [].
Proof.
  intros Hhollow. revert new_nameservers st.
  induction Hhollow as [|rr' more Hrr' _ IH]; intros acc st Hin Hrr Hbefore.
  { by apply elem_of_nil in Hin. }
  cbn [glue].
  assert (∀ a l,
            rr_rdataset rr' = A_rdataset (a :: l) →
            cached_addresses
              (CACHE (store_if_absent (rr_name rr', rdatatype.A)
                        (with_answer query [rr']) st)) (rr_name rr) ≠ []
            ∨ (rr ≠ rr'
               ∧ CACHE (store_if_absent (rr_name rr', rdatatype.A)
                          (with_answer query [rr']) st) !! (rr_name rr, rdatatype.A)
                 = None)) as Hstep.
  { intros a l Ha. unfold store_if_absent.
    destruct (CACHE st !! (rr_name rr', rdatatype.A)) as [old|] eqn:Eold.
    - destruct Hbefore as [Hnone | Hsome]; [|by left].
      right. split; [|done]. intros ->. congruence.
    - destruct (decide (rr_name rr' = rr_name rr)) as [Heq | Hne].
      + left. unfold cached_addresses. cbn. rewrite <- Heq, lookup_insert_eq.
        cbn. unfold a_addresses. by rewrite Ha.
      + destruct Hbefore as [Hnone | Hsome].
        * right. split; [by intros -> |]. cbn.
          rewrite lookup_insert_ne; [done | congruence].
        * left. unfold cached_addresses in *. cbn.
          rewrite lookup_insert_ne; [done | congruence]. }
  apply elem_of_cons in Hin.
  destruct (rr_rdataset rr') as [[|a l]| | | | | |] eqn:E; try done.
  - destruct (Hstep a l eq_refl) as [Hcached | [Hne Hnone]].
    + eapply preserves_cached_addresses; [apply glue_preserves | exact Hcached].
    + destruct Hin as [-> | Hin]; [done|]. apply IH; [done | done | by left].
  - destruct Hin as [-> | Hin]; [congruence|]. by apply IH.
  - destruct Hin as [-> | Hin]; [congruence|]. by apply IH.
  - destruct Hin as [-> | Hin]; [congruence|]. by apply IH.
  - destruct Hin as [-> | Hin]; [congruence|]. by apply IH.
  - destruct Hin as [-> | Hin]; [congruence|]. by apply IH.
  - destruct Hin as [-> | Hin]; [congruence|]. by apply IH.
Qed.

(** X12.  Once a referral has been read, lookups of names under the zone of
    the referral no longer fall back to the Root Hints.  Precisely: when the
    NS entry of the zone was not cached before, and the additional section
    holds an A RRset owned by one of the NS targets, for which no entry was
    cached before, then in the cache the referral leaves the zone is a
    usable ancestor of every name under it, so that the nameserver set a
    lookup of such a name starts with is made of the cached addresses of the
    NS targets of a cached ancestor. *)
Theorem referral_narrows_later_lookups query response authority0 authority_more st
    (ns_name : Name) rr address others (target_name : Name) :
  let zone := rr_name authority0 in
  let cache' := CACHE (referral_read query response zone st) in
  authority response = authority0 :: authority_more →
  CACHE st !! (zone, rdatatype.NS) = None →
  ns_name ∈ flat_map ns_targets (authority response) →
  Forall (λ rr, rr_rdataset rr ≠ A_rdataset []) (additional response) →
  rr ∈ additional response →
  rr_name rr = ns_name →
  rr_rdataset rr = A_rdataset (address :: others) →
  CACHE st !! (ns_name, rdatatype.A) = None →
  zone ∈ ancestors target_name →
  cache' !! (zone, rdatatype.NS) = Some (with_answer query (authority response))
  ∧ usable cache' zone = true
  ∧ ∃ parent,
      parent ∈ ancestors target_name
      ∧ usable cache' parent = true
      ∧ select_nameservers cache' target_name = delegation_addresses cache' parent.
Proof.
  intros zone cache' Hauthority Hzone Hns Hhollow Hrr Hname Hdata Hnone Hancestor.
  assert (cache' !! (zone, rdatatype.NS) = Some (with_answer query (authority response)))
    as Hcached.
  { unfold cache', referral_read. apply glue_preserves.
    unfold store_if_absent. rewrite Hzone. cbn. apply lookup_insert_eq. }
  assert (cached_addresses cache' ns_name ≠ []) as Haddress.
  { unfold cache', referral_read. rewrite <- Hname.
    apply (glue_caches _ _ _ _ _ _ _ Hhollow Hrr Hdata). left.
    rewrite Hname. unfold store_if_absent. rewrite Hzone. cbn.
    rewrite lookup_insert_ne; [done | congruence]. }
  assert (usable cache' zone = true) as Husable.
  { unfold usable. rewrite Hcached. cbn. apply existsb_exists.
    exists ns_name. split; [by apply list_elem_of_In | by apply bool_decide_eq_true]. }
  split; [done | split; [done|]].
  rewrite select_is_closest_delegation. unfold closest_delegation.
  destruct (find (usable cache') (ancestors target_name)) as [parent|] eqn:Efind.
  - apply find_some in Efind as [Hin Hparent].
    exists parent. by rewrite <- list_elem_of_In in Hin.
  - apply list_elem_of_In in Hancestor.
    pose proof (find_none _ _ Efind _ Hancestor). congruence.
Qed.

Lemma referral_narrows_later_lookups_witness :
  let cache' := CACHE (referral_read (Scenario.www, rdatatype.A) Scenario.glued_referral
                         Scenario.example_com Scenario.fresh) in
  cache' !! (Scenario.example_com, rdatatype.NS)
  = Some (with_answer (Scenario.www, rdatatype.A) (authority Scenario.glued_referral))
  ∧ usable cache' Scenario.example_com = true
  ∧ ∃ parent,
      parent ∈ ancestors Scenario.www
      ∧ usable cache' parent = true
      ∧ select_nameservers cache' Scenario.www = delegation_addresses cache' parent.
Proof.
  apply (referral_narrows_later_lookups (Scenario.www, rdatatype.A)
           Scenario.glued_referral
           (mkRRset Scenario.example_com (NS_rdataset [Scenario.ns1; Scenario.ns2])) []
           Scenario.fresh Scenario.ns1
           (mkRRset Scenario.ns1 (A_rdataset ["10.0.0.1"%string])) "10.0.0.1"%string []
           Scenario.www).
  - reflexivity.
  - reflexivity.
  - apply list_elem_of_here.
  - repeat constructor; discriminate.
  - apply list_elem_of_here.
  - reflexivity.
  - reflexivity.
  - reflexivity.
  - apply list_elem_of_further, list_elem_of_here.
Defined.

(** ** A name that cannot be resolved *)

Lemma CACHE_unanswered nameservers (target_name : Name) qtype st :
  CACHE (unanswered nameservers target_name qtype st)
  = <[(target_name, qtype) := make_response (target_name, qtype)]> (CACHE st).
Proof. unfold unanswered, store. cbn [CACHE]. by rewrite CACHE_sent_all. Qed.

Lemma lookup_silent udp fuel (target_name : Name) qtype st :
  (∀ t query ns, ∃ e, udp t query ns = Failed e) →
  CACHE st !! (target_name, qtype) = None →
  lookup udp (S (S fuel)) target_name qtype st
  = Some (Normal (make_response (target_name, qtype)),
          unanswered (select_nameservers (CACHE st) target_name) target_name qtype st).
Proof.
  intros Hsilent Hmiss. apply lookup_unanswered; [done | done |].
  intros i ns _. apply Hsilent.
Qed.

(** X13.  When no nameserver ever replies and nothing is cached for a name,
    [collect_results] returns four empty lists for it, so that
    [print_results] prints nothing; each of the four lookups has left the
    empty response to its query in the cache. *)
Theorem unreachable_name_prints_nothing to_text udp from_text fuel name
    (target_name : Name) st :
  let nothing := {| results_CNAME := []; results_A := [];
                    results_AAAA := []; results_MX := [] |} in
  from_text name = Normal target_name →
  (∀ t query ns, ∃ e, udp t query ns = Failed e) →
  CACHE st !! (target_name, rdatatype.CNAME) = None →
  CACHE st !! (target_name, rdatatype.A) = None →
  CACHE st !! (target_name, rdatatype.AAAA) = None →
  CACHE st !! (target_name, rdatatype.MX) = None →
  ∃ st',
    collect_results udp from_text (S (S fuel)) name st = Some (Normal nothing, st')
    ∧ print_results to_text nothing = []
    ∧ ∀ qtype, qtype ∈ [rdatatype.CNAME; rdatatype.A; rdatatype.AAAA; rdatatype.MX] →
        CACHE st' !! (target_name, qtype) = Some (make_response (target_name, qtype)).
Proof.
  intros nothing Hname Hsilent Hcname Ha Haaaa Hmx.
  unfold collect_results, collect_from. rewrite Hname.
  cbn [follow_cnames].
  rewrite (lookup_silent _ _ _ _ _ Hsilent Hcname). cbn [first_cname answer make_response
    flat_map head].
  unfold collect_records.
  set (s1 := unanswered _ target_name rdatatype.CNAME st).
  assert (CACHE s1 !! (target_name, rdatatype.A) = None) as Ha1.
  { unfold s1. rewrite CACHE_unanswered, lookup_insert_ne; [done | congruence]. }
  rewrite (lookup_silent _ _ _ _ _ Hsilent Ha1).
  set (s2 := unanswered _ target_name rdatatype.A s1).
  assert (CACHE s2 !! (target_name, rdatatype.AAAA) = None) as Haaaa2.
  { unfold s2, s1. rewrite !CACHE_unanswered, !lookup_insert_ne; [done | congruence..]. }
  rewrite (lookup_silent _ _ _ _ _ Hsilent Haaaa2).
  set (s3 := unanswered _ target_name rdatatype.AAAA s2).
  assert (CACHE s3 !! (target_name, rdatatype.MX) = None) as Hmx3.
  { unfold s3, s2, s1.
    rewrite !CACHE_unanswered, !lookup_insert_ne; [done | congruence..]. }
  rewrite (lookup_silent _ _ _ _ _ Hsilent Hmx3).
  set (s4 := unanswered _ target_name rdatatype.MX s3).
  exists s4. split; [done | split; [done|]].
  intros qtype Hq. unfold s4, s3, s2, s1. rewrite !CACHE_unanswered.
  repeat (apply elem_of_cons in Hq as [-> | Hq]); [| | | | by apply elem_of_nil in Hq].
  - rewrite !lookup_insert_ne by congruence. apply lookup_insert_eq.
  - rewrite !lookup_insert_ne by congruence. apply lookup_insert_eq.
  - rewrite lookup_insert_ne by congruence. apply lookup_insert_eq.
  - apply lookup_insert_eq.
Qed.

Lemma unreachable_name_prints_nothing_witness :
  let nothing := {| results_CNAME := []; results_A := [];
                    results_AAAA := []; results_MX := [] |} in
  ∃ st',
    collect_results Scenario.dead_net Scenario.from_text 2 "alpha" Scenario.fresh
      = Some (Normal nothing, st')
    ∧ print_results Scenario.dotted nothing = []
    ∧ ∀ qtype, qtype ∈ [rdatatype.CNAME; rdatatype.A; rdatatype.AAAA; rdatatype.MX] →
        CACHE st' !! (Scenario.alpha, qtype)
        = Some (make_response (Scenario.alpha, qtype)).
Proof.
  apply (unreachable_name_prints_nothing Scenario.dotted Scenario.dead_net
           Scenario.from_text 0 "alpha" Scenario.alpha Scenario.fresh).
  - run.
  - intros t query ns. exists Timeout. reflexivity.
  - reflexivity.
  - reflexivity.
  - reflexivity.
  - reflexivity.
Defined.

(** ** The shape of what a lookup returns *)

Lemma shaped_empty qtype query : shaped qtype (make_response query).
Proof. unfold shaped. case_bool_decide; [by left | done]. Qed.

Section ShapeFacts.

Variable udp : nat → Query → Addr → Reply.
Variable lookup_rec : Name → RdataType → State → option (Completion Message * State).
Variable cache_key : Name * RdataType.
Variable qtype : RdataType.

Lemma classify_shaped (current_target : Name) query response st returned st' :
  classify lookup_rec cache_key qtype current_target query response st
    = Some (Normal (Return returned), st') →
  shaped qtype returned.
Proof.
  unfold classify. intros H.
  repeat case_match; simplify_eq; try apply shaped_empty.
  all: unfold shaped.
  all: repeat match goal with
       | Hq : bool_decide _ = true |- _ => apply bool_decide_eq_true in Hq
       | Hq : bool_decide _ = false |- _ => apply bool_decide_eq_false in Hq
       | Ha : answer _ = _ |- _ => rewrite Ha; clear Ha
       end.
  all: case_bool_decide; try done; try congruence.
  all: by (left + right).
Qed.

Lemma attempt_shaped (current_target : Name) nameservers ns st returned st' :
  attempt udp lookup_rec cache_key qtype current_target nameservers ns st
    = Some (Return returned, st') →
  shaped qtype returned.
Proof.
  unfold attempt, attempt_body. intros H.
  repeat case_match; simplify_eq; eauto using classify_shaped.
Qed.

Lemma for_ns_shaped (current_target : Name) nameservers remaining oq st returned oq' st' :
  for_ns udp lookup_rec cache_key qtype current_target nameservers remaining oq st
    = Some (Return returned, oq', st') →
  shaped qtype returned.
Proof.
  revert oq st. induction remaining as [|ns more IH]; intros oq st; cbn; [done|].
  destruct (attempt _ _ _ _ _ _ _ _) as [[[] st1]|] eqn:E; intros H; simplify_eq;
    eauto using attempt_shaped.
Qed.

Lemma while_true_shaped fuel (current_target : Name) nameservers oq st returned st' :
  while_true udp lookup_rec cache_key qtype fuel current_target nameservers oq st
    = Some (Normal returned, st') →
  shaped qtype returned.
Proof.
  revert current_target nameservers oq st.
  induction fuel as [|fuel IH]; intros target nss oq st; cbn; [done|].
  destruct (for_ns _ _ _ _ _ _ _ _ _) as [[[flow oq1] st1]|] eqn:E; [|done].
  destruct flow as [|response|target' nss'].
  - destruct oq1; intros [= <- _]. apply shaped_empty.
  - intros [= <- _]. by eapply for_ns_shaped.
  - apply IH.
Qed.

End ShapeFacts.

(** X14.  What a lookup returns when it is not served from the cache has a
    fixed shape.  For a type other than CNAME its answer section holds no
    CNAME RRset: an alias is followed, never handed to the caller.  For the
    type CNAME its answer section is empty or holds a CNAME RRset. *)
Theorem lookup_returns_shaped udp fuel (target_name : Name) qtype st returned st' :
  CACHE st !! (target_name, qtype) = None →
  lookup udp fuel target_name qtype st = Some (Normal returned, st') →
  (qtype ≠ rdatatype.CNAME → find is_cname (answer returned) = None)
  ∧ (qtype = rdatatype.CNAME →
     answer returned = [] ∨ existsb is_cname (answer returned) = true).
Proof.
  intros Hmiss. destruct fuel as [|fuel]; [done|].
  rewrite lookup_miss by exact Hmiss. intros H.
  apply while_true_shaped in H. unfold shaped in H.
  split; intros Hq.
  - by rewrite bool_decide_eq_false_2 in H.
  - by rewrite bool_decide_eq_true_2 in H.
Qed.

Lemma lookup_returns_shaped_witness :
  (rdatatype.CNAME ≠ rdatatype.CNAME →
   find is_cname (answer Scenario.alpha_cname) = None)
  ∧ (rdatatype.CNAME = rdatatype.CNAME →
     answer Scenario.alpha_cname = []
     ∨ existsb is_cname (answer Scenario.alpha_cname) = true).
Proof.
  apply (lookup_returns_shaped Scenario.chain_net 4 Scenario.alpha rdatatype.CNAME
           Scenario.fresh Scenario.alpha_cname Scenario.chain_s1).
  - reflexivity.
  - exact chain_lookup_alpha.
Defined.

(** ** The keys a lookup adds to the cache *)

Lemma adds_only_same P st st' : CACHE st' = CACHE st → adds_only P st st'.
Proof. intros H k Hnone [v Hsome]. rewrite H in Hsome. congruence. Qed.

Lemma adds_only_trans P st1 st2 st3 :
  adds_only P st1 st2 → adds_only P st2 st3 → adds_only P st1 st3.
Proof.
  intros H12 H23 k Hnone Hsome.
  destruct (CACHE st2 !! k) as [v|] eqn:E.
  - apply H12; [done | by rewrite E].
  - by apply H23.
Qed.

Lemma adds_only_weaken (P Q : Name * RdataType → Prop) st st' :
  (∀ k, P k → Q k) → adds_only P st st' → adds_only Q st st'.
Proof. intros HPQ H k Hnone Hsome. by apply HPQ, H. Qed.

Lemma adds_only_store key response st :
  adds_only (λ k, k = key) st (store key response st).
Proof.
  intros k Hnone [v Hsome]. cbn in Hsome.
  destruct (decide (key = k)) as [-> | Hne]; [done|].
  rewrite lookup_insert_ne in Hsome by done. congruence.
Qed.

Lemma adds_only_store_if_absent key response st :
  adds_only (λ k, k = key) st (store_if_absent key response st).
Proof.
  unfold store_if_absent. destruct (CACHE st !! key); [by apply adds_only_same|].
  apply adds_only_store.
Qed.

Lemma glue_adds query additionals new_nameservers st :
  adds_only delegation_key st (glue query additionals new_nameservers st).2.
Proof.
  revert new_nameservers st.
  induction additionals as [|rr more IH]; intros acc st; cbn; [by apply adds_only_same|].
  destruct (rr_rdataset rr) as [[|a l]| | | | | |]; cbn;
    try apply IH; try (by apply adds_only_same).
  eapply adds_only_trans; [|apply IH].
  eapply adds_only_weaken; [|apply adds_only_store_if_absent].
  intros k ->. by right.
Qed.

Section AddFacts.

Variable udp : nat → Query → Addr → Reply.
Variable lookup_rec : Name → RdataType → State → option (Completion Message * State).
Variable cache_key : Name * RdataType.
Variable qtype : RdataType.

Hypothesis lookup_rec_adds : ∀ (n : Name) q st c st',
  lookup_rec n q st = Some (c, st') →
  adds_only (λ k, k = (n, q) ∨ delegation_key k) st st'.

Lemma glueless_adds ns_names st found st' :
  glueless lookup_rec ns_names st = Some (found, st') →
  adds_only delegation_key st st'.
Proof using lookup_rec_adds.
  revert st. induction ns_names as [|ns_name more IH]; intros st; cbn.
  { intros [= _ <-]. by apply adds_only_same. }
  destruct (lookup_rec ns_name rdatatype.A _) as [[c st1]|] eqn:E; [|done].
  apply lookup_rec_adds in E.
  assert (adds_only delegation_key st st1) as Hst1.
  { intros k Hnone Hsome. destruct (E k Hnone Hsome) as [-> | Hk]; [by right | done]. }
  intros H. destruct c as [ns_response|e].
  - destruct (flat_map a_addresses (answer ns_response)); simplify_eq;
      eauto using adds_only_trans.
  - eauto using adds_only_trans.
Qed.

Lemma classify_adds (current_target : Name) query response st c st' :
  classify lookup_rec cache_key qtype current_target query response st = Some (c, st') →
  adds_only (λ k, k = cache_key ∨ delegation_key k) st st'.
Proof using lookup_rec_adds.
  unfold classify. intros H.
  repeat case_match; simplify_eq;
    try (eapply adds_only_weaken; [|apply adds_only_store]; by left);
    try (by apply adds_only_same).
  all: match goal with
       | Hg : glue ?q ?a ?n ?s = (_, ?s2) |- _ =>
           pose proof (glue_adds q a n s) as Hp; rewrite Hg in Hp; cbn in Hp
       end.
  all: eapply adds_only_weaken; [intros k Hk; right; exact Hk|].
  all: match goal with
       | Hm : adds_only _ ?mid _ |- _ =>
           apply (adds_only_trans _ _ mid);
             [eapply adds_only_weaken; [|apply adds_only_store_if_absent];
              intros k ->; left; reflexivity|]
       end.
  all: eauto using adds_only_trans, glueless_adds.
Qed.

Lemma attempt_adds (current_target : Name) nameservers ns st flow st' :
  attempt udp lookup_rec cache_key qtype current_target nameservers ns st
    = Some (flow, st') →
  adds_only (λ k, k = cache_key ∨ delegation_key k) st st'.
Proof using lookup_rec_adds.
  unfold attempt, attempt_body. intros H.
  assert (adds_only (λ k, k = cache_key ∨ delegation_key k) st
            (tick (log (Sent nameservers ns (make_query current_target qtype)) st)))
    as Hsent by (by apply adds_only_same).
  repeat case_match; simplify_eq; try exact Hsent.
  all: match goal with
       | Hc : classify _ _ _ _ _ _ _ = Some _ |- _ => apply classify_adds in Hc
       end.
  all: eapply adds_only_trans; [exact Hsent | done].
Qed.

Lemma for_ns_adds (current_target : Name) nameservers remaining oq st flow oq' st' :
  for_ns udp lookup_rec cache_key qtype current_target nameservers remaining oq st
    = Some (flow, oq', st') →
  adds_only (λ k, k = cache_key ∨ delegation_key k) st st'.
Proof using lookup_rec_adds.
  revert oq st. induction remaining as [|ns more IH]; intros oq st; cbn.
  { intros [= _ _ <-]. by apply adds_only_same. }
  destruct (attempt _ _ _ _ _ _ _ _) as [[flow1 st1]|] eqn:E; [|done].
  apply attempt_adds in E.
  destruct flow1; intros H; simplify_eq; eauto using adds_only_trans.
Qed.

Lemma while_true_adds fuel (current_target : Name) nameservers oq st c st' :
  while_true udp lookup_rec cache_key qtype fuel current_target nameservers oq st
    = Some (c, st') →
  adds_only (λ k, k = cache_key ∨ delegation_key k) st st'.
Proof using lookup_rec_adds.
  revert current_target nameservers oq st.
  induction fuel as [|fuel IH]; intros target nss oq st; cbn; [done|].
  destruct (for_ns _ _ _ _ _ _ _ _ _) as [[[flow oq1] st1]|] eqn:E; [|done].
  apply for_ns_adds in E.
  assert (adds_only (λ k, k = cache_key ∨ delegation_key k) st st1) as Hst1 by exact E.
  destruct flow as [|response|target' nss'].
  - destruct oq1; intros [= _ <-]; [|done].
    eapply adds_only_trans; [exact Hst1|].
    eapply adds_only_weaken; [|apply adds_only_store]. by left.
  - by intros [= _ <-].
  - intros H. eapply adds_only_trans; [exact Hst1 | eauto].
Qed.

End AddFacts.

Lemma lookup_adds udp fuel (target_name : Name) qtype st c st' :
  lookup udp fuel target_name qtype st = Some (c, st') →
  adds_only (λ k, k = (target_name, qtype) ∨ delegation_key k) st st'.
Proof.
  revert target_name qtype st c st'.
  induction fuel as [|fuel IH]; intros n q st c st'; cbn; [done|].
  destruct (CACHE st !! (n, q)) as [cached|].
  - intros [= _ <-]. by apply adds_only_same.
  - apply while_true_adds, IH.
Qed.

(** X15.  The only keys a lookup adds to the cache are its own key, NS keys
    (the zones of the referrals it read) and A keys (glue, and the nested
    lookups of nameserver addresses): a lookup of type MX, say, never
    creates an entry of type AAAA, nor an MX entry for another name. *)
Theorem lookup_adds_only_delegation_keys udp fuel (target_name : Name) qtype st c st'
    (name : Name) rdtype :
  lookup udp fuel target_name qtype st = Some (c, st') →
  CACHE st !! (name, rdtype) = None →
  is_Some (CACHE st' !! (name, rdtype)) →
  (name, rdtype) = (target_name, qtype)
  ∨ rdtype = rdatatype.NS ∨ rdtype = rdatatype.A.
Proof. intros H. apply (lookup_adds _ _ _ _ _ _ _ H). Qed.

Lemma lookup_adds_only_delegation_keys_witness :
  (Scenario.example_com, rdatatype.NS) = (Scenario.www, rdatatype.A)
  ∨ rdatatype.NS = rdatatype.NS ∨ rdatatype.NS = rdatatype.A.
Proof.
  apply (lookup_adds_only_delegation_keys _ _ _ _ _ _ _ _ _ lame_lookup).
  - reflexivity.
  - exists (with_answer (Scenario.www, rdatatype.A) (authority Scenario.glued_referral)).
    run.
Defined.
